(** * graphql2python.query.types: a shallow embedding and its verification

    The module [graphql2python/query/types.py] defines seven pydantic models
    ([Variable], [Argument], [Field], [InlineFragment], [Fragment], [Query],
    [Operation]).  Each one validates its keyword arguments when it is
    constructed and renders itself to GraphQL text through a jinja2 template.

    The development has three layers:
    - strings: [split], [join] and [_shift_line];
    - construction: the pydantic validation loop as an applicative that
      either raises at once or collects validator errors, and one
      constructor per class;
    - rendering: one function per [render] method, over a record holding the
      ten jinja2 templates. *)

From Stdlib Require Import String Ascii List Bool Arith Lia.
Import ListNotations.

Open Scope string_scope.
Open Scope list_scope.

(* ================================================================== *)
(** * Strings *)
(* ================================================================== *)

Module Str.

(** The line feed character, and the one-character string ["\n"]. *)
Definition LF : ascii := "010"%char.
Definition nl : string := String LF EmptyString.

(** Python's [text.split(sep)] for a one-character separator: the pieces
    between the occurrences of [sep]; never the empty list. *)
Fixpoint split (sep : ascii) (text : string) : list string :=
  match text with
  | EmptyString => [EmptyString]
  | String c rest =>
      if Ascii.eqb c sep then EmptyString :: split sep rest
      else match split sep rest with
           | piece :: pieces => String c piece :: pieces
           | [] => [String c EmptyString]
           end
  end.

(** Python's [sep.join(pieces)], also jinja2's [join] filter. *)
Fixpoint join (sep : string) (pieces : list string) : string :=
  match pieces with
  | [] => EmptyString
  | [piece] => piece
  | piece :: rest => piece ++ sep ++ join sep rest
  end.

(** One indentation level. *)
Definition indent : string := "  ".

(** [n] indentation levels in front of a line. *)
Fixpoint indent_by (n : nat) (line : string) : string :=
  match n with
  | O => line
  | S k => indent ++ indent_by k line
  end.

(** [needle] is a prefix of [text]. *)
Fixpoint starts_with (needle text : string) : bool :=
  match needle, text with
  | EmptyString, _ => true
  | String a n', String b t' => Ascii.eqb a b && starts_with n' t'
  | String _ _, EmptyString => false
  end.

(** Python's [text.count(needle)] read position by position: the number of
    offsets of [text] at which [needle] starts. *)
Fixpoint occurrences (needle text : string) : nat :=
  (if starts_with needle text then 1 else 0) +
  match text with
  | EmptyString => 0
  | String _ rest => occurrences needle rest
  end.

(** A text without separator: it is its only piece. *)
Definition free (sep : ascii) (text : string) : Prop :=
  split sep text = [text].

End Str.

(* ================================================================== *)
(** * Exceptions and the pydantic validation loop *)
(* ================================================================== *)

(** What a validator, a default factory or a constructor can raise.

    - [GraphQLError] is raised by graphql-core's [assert_name]; the spec calls
      it [NamingError].  It carries the violated rule and the offending
      string.  It is not a [ValueError], so pydantic lets it propagate.
    - [ValueError] is raised by the [fields] and [queries] validators of this
      module.
    - [TypeError] is raised by [typing.List[...]()], the default factory of
      the three list fields of [Operation].
    - [ValidationError] is what a pydantic constructor raises after the
      validation loop when validators raised [ValueError]: the collected
      errors, each with the name of its field.  The spec calls the one made
      by an empty selection [EmptySelectionError]. *)
Inductive Exception : Type :=
| GraphQLError (rule : string) (offending : string)
| ValueError (msg : string)
| TypeError (msg : string)
| ValidationError (errors : list (string * string)).

Definition Result (A : Type) : Type := (Exception + A)%type.

Definition is_raised {A : Type} (r : Result A) : bool :=
  match r with inl _ => true | inr _ => false end.

Module Pydantic.

(** The state of [validate_model] after some fields: either an exception
    went through, or the errors collected so far with the value built from
    the fields that passed ([None] as soon as one field failed). *)
Definition Validation (A : Type) : Type :=
  (Exception + (list (string * string) * option A))%type.

Definition pure {A : Type} (a : A) : Validation A := inr ([], Some a).

(** One more field, in declaration order.  An exception of an earlier field
    wins; collected errors keep their order. *)
Definition ap {A B : Type} (vf : Validation (A -> B)) (va : Validation A)
  : Validation B :=
  match vf with
  | inl exc => inl exc
  | inr (errs1, f) =>
      match va with
      | inl exc => inl exc
      | inr (errs2, a) =>
          inr (errs1 ++ errs2,
               match f, a with
               | Some f', Some a' => Some (f' a')
               | _, _ => None
               end)
      end
  end.

(** The outcome of a validator on one field.  pydantic catches
    [ValueError] (also [TypeError] and [AssertionError]) raised inside a
    validator and records it under the field name; any other exception
    leaves the constructor at once. *)
Definition validated {A : Type} (loc : string) (r : Result A) : Validation A :=
  match r with
  | inr a => pure a
  | inl (ValueError msg) => inr ([(loc, msg)], None)
  | inl (TypeError msg) => inr ([(loc, msg)], None)
  | inl exc => inl exc
  end.

(** A field with a default.  When the keyword is absent the default is
    taken as it is: none of the validators of this module is declared with
    [always=True], so none runs on a default.  An exception of the default
    factory is raised outside any validator and propagates. *)
Definition field {A : Type} (loc : string) (supplied : option A)
    (default : Result A) (validator : A -> Result A) : Validation A :=
  match supplied with
  | Some v => validated loc (validator v)
  | None => match default with
            | inr d => pure d
            | inl exc => inl exc
            end
  end.

(** A required field: the keyword is always there. *)
Definition required {A : Type} (loc : string) (v : A)
    (validator : A -> Result A) : Validation A :=
  validated loc (validator v).

(** The end of [validate_model]: the object, or [ValidationError]. *)
Definition finish {A : Type} (v : Validation A) : Result A :=
  match v with
  | inl exc => inl exc
  | inr ([], Some a) => inr a
  | inr (errs, _) => inl (ValidationError errs)
  end.

(** A field without validator. *)
Definition no_validator {A : Type} (v : A) : Result A := inr v.

End Pydantic.

Notation "f <$> v" := (Pydantic.ap (Pydantic.pure f) v)
  (at level 61, left associativity).
Notation "vf <*> v" := (Pydantic.ap vf v)
  (at level 61, left associativity).

(* ================================================================== *)
(** * The name validator *)
(* ================================================================== *)

Module Name.

Definition in_range (lo hi c : ascii) : bool :=
  Nat.leb (nat_of_ascii lo) (nat_of_ascii c) && Nat.leb (nat_of_ascii c) (nat_of_ascii hi).

Definition is_letter (c : ascii) : bool :=
  in_range "a" "z" c || in_range "A" "Z" c.

Definition is_digit (c : ascii) : bool := in_range "0" "9" c.

Definition is_name_start (c : ascii) : bool :=
  is_letter c || Ascii.eqb c "_".

Definition is_name_continue (c : ascii) : bool :=
  is_letter c || is_digit c || Ascii.eqb c "_".

Fixpoint all_name_continue (s : string) : bool :=
  match s with
  | EmptyString => true
  | String c rest => is_name_continue c && all_name_continue rest
  end.

(** Modelled from the spec: [assert_name] is imported from the graphql-core
    package and is not part of the sources.  The spec gives its contract
    ("return it unchanged if legal, else fail with a NamingError carrying
    the offending string and the violated rule") and the grammar
    ("letters/digits/underscore, not starting with a digit"): a name is
    not empty, every character after the first is a letter, a digit or an
    underscore, and the first is a letter or an underscore.  The name
    grammar of the query language reserves no prefix: [__typename] is a
    name, and the templates of this package emit it. *)
Definition assert_name (name : string) : Result string :=
  match name with
  | EmptyString => inl (GraphQLError "Expected name to be a non-empty string." name)
  | String first rest =>
      if negb (all_name_continue rest)
      then inl (GraphQLError "Names must only contain [_a-zA-Z0-9]." name)
      else if negb (is_name_start first)
      then inl (GraphQLError "Names must start with [_a-zA-Z]." name)
      else inr name
  end.

(** The grammar itself, as a decidable predicate: [_A-Za-z][_0-9A-Za-z]*. *)
Definition is_name (s : string) : bool :=
  match s with
  | EmptyString => false
  | String first rest => is_name_start first && all_name_continue rest
  end.

End Name.

(* ================================================================== *)
(** * The data model *)
(* ================================================================== *)

(** class Variable *)
Record VariableT : Type := mkVariable {
  Variable_name : string;
  Variable_type : string;
  Variable_default : option string
}.

(** class Argument; [value: Union[str, 'Argument', List['Argument'], Variable]] *)
Inductive Argument : Type :=
| mkArgument (name : string) (value : ArgumentValue)
with ArgumentValue : Type :=
| ValueStr (s : string)
| ValueArgument (a : Argument)
| ValueArguments (l : list Argument)
| ValueVariable (v : VariableT).

Definition Argument_name (a : Argument) : string :=
  match a with mkArgument name _ => name end.
Definition Argument_value (a : Argument) : ArgumentValue :=
  match a with mkArgument _ value => value end.

(** classes Field, InlineFragment and Fragment, and the members of their
    [fields]: [Union[str, 'Field', 'InlineFragment', 'Fragment']]. *)
Inductive Field : Type :=
| mkField (name : string) (alias : option string) (arguments : list Argument)
          (fields : list Selection) (typename : bool)
with InlineFragment : Type :=
| mkInlineFragment (type : string) (arguments : list Argument)
                   (fields : list Selection) (typename : bool)
with Fragment : Type :=
| mkFragment (name : string) (type : string) (fields : list Selection)
             (typename : bool)
with Selection : Type :=
| SelStr (s : string)
| SelField (f : Field)
| SelInlineFragment (i : InlineFragment)
| SelFragment (f : Fragment).

Definition Field_name (f : Field) := match f with mkField n _ _ _ _ => n end.
Definition Field_alias (f : Field) := match f with mkField _ a _ _ _ => a end.
Definition Field_arguments (f : Field) := match f with mkField _ _ a _ _ => a end.
Definition Field_fields (f : Field) := match f with mkField _ _ _ fs _ => fs end.
Definition Field_typename (f : Field) := match f with mkField _ _ _ _ t => t end.

Definition InlineFragment_type (i : InlineFragment) :=
  match i with mkInlineFragment t _ _ _ => t end.
Definition InlineFragment_arguments (i : InlineFragment) :=
  match i with mkInlineFragment _ a _ _ => a end.
Definition InlineFragment_fields (i : InlineFragment) :=
  match i with mkInlineFragment _ _ fs _ => fs end.
Definition InlineFragment_typename (i : InlineFragment) :=
  match i with mkInlineFragment _ _ _ t => t end.

Definition Fragment_name (f : Fragment) := match f with mkFragment n _ _ _ => n end.
Definition Fragment_type (f : Fragment) := match f with mkFragment _ t _ _ => t end.
Definition Fragment_fields (f : Fragment) := match f with mkFragment _ _ fs _ => fs end.
Definition Fragment_typename (f : Fragment) := match f with mkFragment _ _ _ t => t end.

(** class Query *)
Record Query : Type := mkQuery {
  Query_name : string;
  Query_alias : option string;
  Query_arguments : list Argument;
  Query_typename : bool;
  Query_fields : list Selection
}.

(** class Operation *)
Record Operation : Type := mkOperation {
  Operation_type : string;
  Operation_name : option string;
  Operation_variables : list VariableT;
  Operation_queries : list Query;
  Operation_fragments : list Fragment
}.

(* ================================================================== *)
(** * Construction *)
(* ================================================================== *)

(** A constructor takes the keyword arguments of the Python call.  A field
    without default is a plain argument.  A field with a default is an
    [option]: [None] when the keyword is absent.  For the three
    [Optional[str]] fields ([default], [alias], [name] of [Operation]) [None]
    stands both for an absent keyword and for an explicit [None]: the default
    is [None], and the validators return [None] as it is.

    Children are constructed before their parent, so an argument that holds
    entities holds constructed ones; pydantic keeps an instance of the
    expected class without validating it again. *)

Import Pydantic Name.

Definition empty_list {A : Type} : Result (list A) := inr [].

(** [default_factory=List[...]]: [typing.List] cannot be instantiated. *)
Definition typing_List_error : Exception :=
  TypeError "Type List cannot be instantiated; use list() instead".

Definition typing_List {A : Type} : Result (list A) := inl typing_List_error.

(** ** Variable *)

Definition graphql_variable_name (v : string) : Result string := assert_name v.

Definition Variable_new (name type : string) (default : option string)
  : Result VariableT :=
  finish (mkVariable
            <$> required "name" name graphql_variable_name
            <*> required "type" type no_validator
            <*> required "default" default no_validator).

(** ** Argument *)

Definition graphql_argument_name (v : string) : Result string := assert_name v.

Definition Argument_new (name : string) (value : ArgumentValue)
  : Result Argument :=
  finish (mkArgument
            <$> required "name" name graphql_argument_name
            <*> required "value" value no_validator).

(** ** Field *)

Definition graphql_field_name (v : string) : Result string := assert_name v.

Definition graphql_field_alias (v : option string) : Result (option string) :=
  match v with
  | Some s => match assert_name s with
              | inr s' => inr (Some s')
              | inl exc => inl exc
              end
  | None => inr v
  end.

Definition Field_new (name : string) (alias : option string)
    (arguments : option (list Argument)) (fields : option (list Selection))
    (typename : option bool) : Result Field :=
  finish (mkField
            <$> required "name" name graphql_field_name
            <*> required "alias" alias graphql_field_alias
            <*> field "arguments" arguments empty_list no_validator
            <*> field "fields" fields empty_list no_validator
            <*> field "typename" typename (inr false) no_validator).

(** ** InlineFragment *)

Definition graphql_inline_fragment_fields (v : list Selection)
  : Result (list Selection) :=
  if Nat.eqb (List.length v) 0
  then inl (ValueError "empty fields for this inline fragment")
  else inr v.

Definition InlineFragment_new (type : string)
    (arguments : option (list Argument)) (fields : option (list Selection))
    (typename : option bool) : Result InlineFragment :=
  finish (mkInlineFragment
            <$> required "type" type no_validator
            <*> field "arguments" arguments empty_list no_validator
            <*> field "fields" fields empty_list graphql_inline_fragment_fields
            <*> field "typename" typename (inr false) no_validator).

(** ** Fragment *)

Definition graphql_fragment_name (v : string) : Result string := assert_name v.

Definition graphql_fragment_fields (v : list Selection)
  : Result (list Selection) :=
  if Nat.eqb (List.length v) 0
  then inl (ValueError "empty fields for this fragment")
  else inr v.

Definition Fragment_new (name type : string)
    (fields : option (list Selection)) (typename : option bool)
  : Result Fragment :=
  finish (mkFragment
            <$> required "name" name graphql_fragment_name
            <*> required "type" type no_validator
            <*> field "fields" fields empty_list graphql_fragment_fields
            <*> field "typename" typename (inr false) no_validator).

(** ** Query *)

Definition graphql_query_name (v : string) : Result string := assert_name v.

Definition graphql_alias_alias (v : option string) : Result (option string) :=
  match v with
  | Some s => match assert_name s with
              | inr s' => inr (Some s')
              | inl exc => inl exc
              end
  | None => inr v
  end.

Definition graphql_query_fields (v : list Selection)
  : Result (list Selection) :=
  if Nat.eqb (List.length v) 0
  then inl (ValueError "empty fields for this query")
  else inr v.

Definition Query_new (name : string) (alias : option string)
    (arguments : option (list Argument)) (typename : option bool)
    (fields : option (list Selection)) : Result Query :=
  finish (mkQuery
            <$> required "name" name graphql_query_name
            <*> required "alias" alias graphql_alias_alias
            <*> field "arguments" arguments empty_list no_validator
            <*> field "typename" typename (inr false) no_validator
            <*> field "fields" fields empty_list graphql_query_fields).

(** ** Operation *)

(** The class attribute [_supported_types].  Nothing reads it. *)
Definition _supported_types : list string :=
  ["query"; "mutation"; "subscription"].

Definition graphql_operation_name (v : option string) : Result (option string) :=
  match v with
  | Some s => match assert_name s with
              | inr s' => inr (Some s')
              | inl exc => inl exc
              end
  | None => inr v
  end.

Definition graphql_queries (v : list Query) : Result (list Query) :=
  if Nat.eqb (List.length v) 0
  then inl (ValueError "empty queries list for this operation")
  else inr v.

Definition Operation_new (type : option string) (name : option string)
    (variables : option (list VariableT)) (queries : option (list Query))
    (fragments : option (list Fragment)) : Result Operation :=
  finish (mkOperation
            <$> field "type" type (inr "query") no_validator
            <*> required "name" name graphql_operation_name
            <*> field "variables" variables typing_List no_validator
            <*> field "queries" queries typing_List graphql_queries
            <*> field "fragments" fragments typing_List no_validator).

(* ================================================================== *)
(** * Rendering *)
(* ================================================================== *)

(** The jinja2 templates of [templates/], one per file: each is a function
    of the keyword arguments its [render] call receives, in the order of the
    call. *)
Record Templates : Type := {
  variable_jinja2 : string -> string -> option string -> string;
  argument_key_value_jinja2 : string -> string -> string;
  argument_key_argument_jinja2 : string -> string -> string;
  argument_key_variable_jinja2 : string -> string -> string;
  argument_key_arguments_jinja2 : string -> list string -> string;
  field_jinja2 :
    string -> option string -> list string -> list string -> bool -> string;
  inline_fragment_jinja2 :
    string -> list string -> list string -> bool -> string;
  fragment_jinja2 : string -> string -> list string -> bool -> string;
  query_jinja2 :
    string -> option string -> list string -> bool -> list string -> string;
  operation_jinja2 :
    string -> option string -> list string -> list string -> list string
    -> string
}.

(** GraphQL2PythonQuery._shift_line *)
Definition _shift_line (text : string) : string :=
  Str.join (Str.nl ++ "  ") (Str.split Str.LF text).

Section Render.

Variable T : Templates.

(** Variable.render *)
Definition Variable_render (self : VariableT) : string :=
  variable_jinja2 T (Variable_name self) (Variable_type self)
                  (Variable_default self).

(** Argument.render: [str], then [Argument], then [Variable], else the
    list. *)
Fixpoint Argument_render (self : Argument) : string :=
  match self with
  | mkArgument name (ValueStr value) =>
      argument_key_value_jinja2 T name value
  | mkArgument name (ValueArgument value) =>
      argument_key_argument_jinja2 T name (_shift_line (Argument_render value))
  | mkArgument name (ValueVariable value) =>
      argument_key_variable_jinja2 T name (Variable_name value)
  | mkArgument name (ValueArguments value) =>
      argument_key_arguments_jinja2 T name
        (map (fun argument => _shift_line (Argument_render argument)) value)
  end.

Definition render_arguments (arguments : list Argument) : list string :=
  map (fun argument => _shift_line (Argument_render argument)) arguments.

(** Field.render, InlineFragment.render and
    GraphQL2PythonQuery._render_field. *)
Fixpoint Field_render (self : Field) : string :=
  match self with
  | mkField name alias arguments fields typename =>
      field_jinja2 T name alias (render_arguments arguments)
                   (map _render_field fields) typename
  end
with InlineFragment_render (self : InlineFragment) : string :=
  match self with
  | mkInlineFragment type arguments fields typename =>
      inline_fragment_jinja2 T type (render_arguments arguments)
                             (map _render_field fields) typename
  end
with _render_field (v : Selection) : string :=
  match v with
  | SelStr s => s
  | SelFragment f => "..." ++ Fragment_name f
  | SelField f => _shift_line (Field_render f)
  | SelInlineFragment i => _shift_line (InlineFragment_render i)
  end.

(** Fragment.render *)
Definition Fragment_render (self : Fragment) : string :=
  fragment_jinja2 T (Fragment_name self) (Fragment_type self)
                  (map _render_field (Fragment_fields self))
                  (Fragment_typename self).

(** Query.render *)
Definition Query_render (self : Query) : string :=
  query_jinja2 T (Query_name self) (Query_alias self)
               (render_arguments (Query_arguments self))
               (Query_typename self)
               (map _render_field (Query_fields self)).

(** Operation.render *)
Definition Operation_render (self : Operation) : string :=
  operation_jinja2 T (Operation_type self) (Operation_name self)
    (map (fun variable => _shift_line (Variable_render variable))
         (Operation_variables self))
    (map (fun query => _shift_line (Query_render query))
         (Operation_queries self))
    (map Fragment_render (Operation_fragments self)).

End Render.

(* ================================================================== *)
(** * The templates *)
(* ================================================================== *)

(** The files of [templates/] are not part of the sources.  What is proved
    for every [T : Templates] holds for them whatever they contain.  The
    text they produce is fixed below from the spec (sections 4.3 to 4.5 and
    the end-to-end scenarios of section 8). *)
Module SpecTemplates.

Import Str.

(** Modelled from the spec: the parenthesized list of section 4.4 and 4.5,
    absent from the sources with the templates; "empty argument lists omit
    the parentheses entirely", and scenario 4 separates the members by a
    comma and a space. *)
Definition parenthesized (members : list string) : string :=
  match members with
  | [] => ""
  | _ => "(" ++ join ", " members ++ ")"
  end.

(** Modelled from the spec: the selection block of section 4.4, absent from
    the sources with the templates; "a brace-delimited selection block
    built from: the reserved introspection field first if its flag is set,
    then each child selection in input order", each child one level (two
    spaces) inside the braces as in scenario 3.  Without any child there is
    no block. *)
Definition selection_block (typename : bool) (fields : list string) : string :=
  match ((if typename then ["__typename"] else []) ++ fields)%list with
  | [] => ""
  | children =>
      " {" ++ nl ++ indent ++ join (nl ++ indent) children ++ nl ++ "}"
  end.

(** Modelled from the spec: the header of a field or query, absent from the
    sources with the templates; the name, then the alias when there is one,
    as in the example of the [Query] docstring
    ([human: human1000th] for name [human] and alias [human1000th]). *)
Definition header (name : string) (alias : option string) : string :=
  match alias with
  | Some a => name ++ ": " ++ a
  | None => name
  end.

(** Modelled from the spec: [variable.jinja2], absent from the sources;
    section 4.5, "[$name: type] or [$name: type = default]". *)
Definition variable (name type : string) (default : option string) : string :=
  match default with
  | Some d => "$" ++ name ++ ": " ++ type ++ " = " ++ d
  | None => "$" ++ name ++ ": " ++ type
  end.

(** Modelled from the spec: [argument_key_value.jinja2], absent from the
    sources; section 4.3, "literal string => [name: value]". *)
Definition argument_key_value (name value : string) : string :=
  name ++ ": " ++ value.

(** Modelled from the spec: [argument_key_argument.jinja2], absent from the
    sources; section 4.3, "[name: { <rendered nested argument, indented> }]". *)
Definition argument_key_argument (name argument : string) : string :=
  name ++ ": {" ++ nl ++ indent ++ argument ++ nl ++ "}".

(** Modelled from the spec: [argument_key_variable.jinja2], absent from the
    sources; section 4.3, "[name: $<variable name>]". *)
Definition argument_key_variable (name value : string) : string :=
  name ++ ": $" ++ value.

(** Modelled from the spec: [argument_key_arguments.jinja2], absent from
    the sources; section 4.3, "[name: [ <each rendered argument, indented,
    in sequence order> ]]". *)
Definition argument_key_arguments (name : string) (arguments : list string)
  : string :=
  name ++ ": [" ++ nl ++ indent ++ join (nl ++ indent) arguments ++ nl ++ "]".

(** Modelled from the spec: [field.jinja2], absent from the sources;
    section 4.4, header, parenthesized arguments, selection block. *)
Definition field (name : string) (alias : option string)
    (arguments fields : list string) (typename : bool) : string :=
  header name alias ++ parenthesized arguments
    ++ selection_block typename fields.

(** Modelled from the spec: [inline_fragment.jinja2], absent from the
    sources; section 4.4, with the type condition as header. *)
Definition inline_fragment (type : string) (arguments fields : list string)
    (typename : bool) : string :=
  "... on " ++ type ++ parenthesized arguments
    ++ selection_block typename fields.

(** Modelled from the spec: [fragment.jinja2], absent from the sources;
    section 4.4, with the name and the type condition as header. *)
Definition fragment (name type : string) (fields : list string)
    (typename : bool) : string :=
  "fragment " ++ name ++ " on " ++ type ++ selection_block typename fields.

(** Modelled from the spec: [query.jinja2], absent from the sources;
    section 4.4, as a field. *)
Definition query (name : string) (alias : option string)
    (arguments : list string) (typename : bool) (fields : list string)
  : string :=
  header name alias ++ parenthesized arguments
    ++ selection_block typename fields.

(** Modelled from the spec: the fragment definitions after the block of an
    operation, absent from the sources with the templates; section 4.5,
    "followed by every Fragment definition rendered in full (not as a
    spread) at the top level, in declaration order". *)
Fixpoint definitions (fragments : list string) : string :=
  match fragments with
  | [] => ""
  | body :: rest => nl ++ nl ++ body ++ definitions rest
  end.

(** Modelled from the spec: [operation.jinja2], absent from the sources;
    section 4.5, the keyword, the optional name, the parenthesized
    variables, the block of the queries "each indented one level", then the
    fragment definitions. *)
Definition operation (type : string) (name : option string)
    (variables queries fragments : list string) : string :=
  type ++ match name with Some n => " " ++ n | None => "" end
    ++ parenthesized variables
    ++ " {" ++ nl ++ indent ++ join (nl ++ indent) queries ++ nl ++ "}"
    ++ definitions fragments.

Definition templates : Templates := {|
  variable_jinja2 := variable;
  argument_key_value_jinja2 := argument_key_value;
  argument_key_argument_jinja2 := argument_key_argument;
  argument_key_variable_jinja2 := argument_key_variable;
  argument_key_arguments_jinja2 := argument_key_arguments;
  field_jinja2 := field;
  inline_fragment_jinja2 := inline_fragment;
  fragment_jinja2 := fragment;
  query_jinja2 := query;
  operation_jinja2 := operation
|}.

End SpecTemplates.

Definition spec_templates : Templates := SpecTemplates.templates.

(* ================================================================== *)
(** * Vocabulary of the statements *)
(* ================================================================== *)

(** What holds of a legal name [s] at every validated place: each validator
    returns it unchanged, and the constructors store it unchanged. *)
Definition accepted_unchanged (s : string) : Prop :=
  Name.assert_name s = inr s
  /\ graphql_variable_name s = inr s
  /\ graphql_argument_name s = inr s
  /\ graphql_field_name s = inr s
  /\ graphql_field_alias (Some s) = inr (Some s)
  /\ graphql_fragment_name s = inr s
  /\ graphql_query_name s = inr s
  /\ graphql_alias_alias (Some s) = inr (Some s)
  /\ graphql_operation_name (Some s) = inr (Some s)
  /\ (forall type default,
         Variable_new s type default = inr (mkVariable s type default))
  /\ (forall value, Argument_new s value = inr (mkArgument s value))
  /\ (forall arguments fields typename,
         Field_new s (Some s) (Some arguments) (Some fields) (Some typename)
         = inr (mkField s (Some s) arguments fields typename))
  /\ (forall type child fields typename,
         Fragment_new s type (Some (child :: fields)) (Some typename)
         = inr (mkFragment s type (child :: fields) typename))
  /\ (forall arguments typename child fields,
         Query_new s (Some s) (Some arguments) (Some typename)
                   (Some (child :: fields))
         = inr (mkQuery s (Some s) arguments typename (child :: fields)))
  /\ (forall type variables query queries fragments,
         Operation_new (Some type) (Some s) (Some variables)
                       (Some (query :: queries)) (Some fragments)
         = inr (mkOperation type (Some s) variables (query :: queries)
                            fragments)).

(** What holds of a string [s] outside the grammar: each validator raises the
    naming error on [s], and a constructor given [s] as name raises it
    whatever its other arguments are. *)
Definition rejected (s : string) : Prop :=
  exists rule,
    let exc := GraphQLError rule s in
    Name.assert_name s = inl exc
    /\ graphql_variable_name s = inl exc
    /\ graphql_argument_name s = inl exc
    /\ graphql_field_name s = inl exc
    /\ graphql_field_alias (Some s) = inl exc
    /\ graphql_fragment_name s = inl exc
    /\ graphql_query_name s = inl exc
    /\ graphql_alias_alias (Some s) = inl exc
    /\ graphql_operation_name (Some s) = inl exc
    /\ (forall type default, Variable_new s type default = inl exc)
    /\ (forall value, Argument_new s value = inl exc)
    /\ (forall alias arguments fields typename,
           Field_new s alias arguments fields typename = inl exc)
    /\ (forall type fields typename,
           Fragment_new s type fields typename = inl exc)
    /\ (forall alias arguments typename fields,
           Query_new s alias arguments typename fields = inl exc)
    /\ (forall type variables queries fragments,
           Operation_new type (Some s) variables queries fragments = inl exc).

(** A query with one leaf selection, built by its constructor. *)
Definition hero_query : Query :=
  mkQuery "hero" None [] false [SelStr "name"].

(** The errors of an empty selection, as pydantic reports them. *)
Definition empty_fields_error (owner : string) : Exception :=
  ValidationError [("fields", ("empty fields for this " ++ owner)%string)].

Definition empty_queries_error : Exception :=
  ValidationError [("queries", "empty queries list for this operation")].

(** An alias is absent or a legal name. *)
Definition alias_ok (alias : option string) : bool :=
  match alias with
  | Some a => Name.is_name a
  | None => true
  end.

Definition or_default {A : Type} (supplied : option A) (default : A) : A :=
  match supplied with
  | Some v => v
  | None => default
  end.

(** ** Induction over selections and arguments

    [fields] nests the selections in lists, and an argument nests arguments
    in a list: the induction principles take the property of the members as
    a [Forall].  A fragment met among the selections is a leaf there: a
    spread names it and does not enter it. *)

Section SelectionInduction.

Variables (PF : Field -> Prop) (PI : InlineFragment -> Prop)
          (PS : Selection -> Prop).

Hypothesis HField : forall name alias arguments fields typename,
    Forall PS fields -> PF (mkField name alias arguments fields typename).
Hypothesis HInline : forall type arguments fields typename,
    Forall PS fields -> PI (mkInlineFragment type arguments fields typename).
Hypothesis HStr : forall s, PS (SelStr s).
Hypothesis HSelField : forall f, PF f -> PS (SelField f).
Hypothesis HSelInline : forall i, PI i -> PS (SelInlineFragment i).
Hypothesis HSelFragment : forall f, PS (SelFragment f).

Fixpoint Field_induction (f : Field) : PF f :=
  match f with
  | mkField name alias arguments fields typename =>
      HField name alias arguments fields typename
        ((fix members (l : list Selection) : Forall PS l :=
            match l with
            | [] => Forall_nil PS
            | s :: rest =>
                Forall_cons s (Selection_induction s) (members rest)
            end) fields)
  end
with InlineFragment_induction (i : InlineFragment) : PI i :=
  match i with
  | mkInlineFragment type arguments fields typename =>
      HInline type arguments fields typename
        ((fix members (l : list Selection) : Forall PS l :=
            match l with
            | [] => Forall_nil PS
            | s :: rest =>
                Forall_cons s (Selection_induction s) (members rest)
            end) fields)
  end
with Selection_induction (s : Selection) : PS s :=
  match s with
  | SelStr str => HStr str
  | SelField f => HSelField f (Field_induction f)
  | SelInlineFragment i => HSelInline i (InlineFragment_induction i)
  | SelFragment f => HSelFragment f
  end.

End SelectionInduction.

Section ArgumentInduction.

Variable P : Argument -> Prop.

Hypothesis HStr : forall name s, P (mkArgument name (ValueStr s)).
Hypothesis HArgument : forall name a,
    P a -> P (mkArgument name (ValueArgument a)).
Hypothesis HArguments : forall name l,
    Forall P l -> P (mkArgument name (ValueArguments l)).
Hypothesis HVariable : forall name v, P (mkArgument name (ValueVariable v)).

Fixpoint Argument_induction (a : Argument) : P a :=
  match a with
  | mkArgument name (ValueStr s) => HStr name s
  | mkArgument name (ValueArgument a') =>
      HArgument name a' (Argument_induction a')
  | mkArgument name (ValueArguments l) =>
      HArguments name l
        ((fix members (l : list Argument) : Forall P l :=
            match l with
            | [] => Forall_nil P
            | x :: rest => Forall_cons x (Argument_induction x) (members rest)
            end) l)
  | mkArgument name (ValueVariable v) => HVariable name v
  end.

End ArgumentInduction.

(** ** Calls of [render], with the object they leave behind

    A call of a method returns its result and the object as the call leaves
    it.  [render] reads the attributes of [self], calls [render] on the
    members of its lists, and hands fresh lists of strings to a template; the
    members are put back as their own calls leave them. *)

Definition Call (A : Type) : Type := A -> string * A.

(** The calls of a list comprehension over a list attribute, in order. *)
Definition calls {A : Type} (call : Call A) : list A -> list string * list A :=
  fix each (l : list A) : list string * list A :=
    match l with
    | [] => ([], [])
    | x :: rest =>
        let (text, x') := call x in
        let (texts, rest') := each rest in
        (text :: texts, x' :: rest')
    end.

(** [n] calls one after the other on the same object. *)
Fixpoint repeat_call {A : Type} (call : Call A) (n : nat) (self : A)
  : list string * A :=
  match n with
  | O => ([], self)
  | S k =>
      let (text, self') := call self in
      let (texts, self'') := repeat_call call k self' in
      (text :: texts, self'')
  end.

Section RenderCalls.

Variable T : Templates.

Definition Variable_render_call : Call VariableT := fun self =>
  (variable_jinja2 T (Variable_name self) (Variable_type self)
                   (Variable_default self),
   self).

Fixpoint Argument_render_call (self : Argument) : string * Argument :=
  match self with
  | mkArgument name (ValueStr value) =>
      (argument_key_value_jinja2 T name value, self)
  | mkArgument name (ValueArgument value) =>
      let (text, value') := Argument_render_call value in
      (argument_key_argument_jinja2 T name (_shift_line text),
       mkArgument name (ValueArgument value'))
  | mkArgument name (ValueVariable value) =>
      (argument_key_variable_jinja2 T name (Variable_name value), self)
  | mkArgument name (ValueArguments value) =>
      let (texts, value') := calls Argument_render_call value in
      (argument_key_arguments_jinja2 T name (map _shift_line texts),
       mkArgument name (ValueArguments value'))
  end.

Fixpoint Field_render_call (self : Field) : string * Field :=
  match self with
  | mkField name alias arguments fields typename =>
      let (atexts, arguments') := calls Argument_render_call arguments in
      let (ftexts, fields') := calls _render_field_call fields in
      (field_jinja2 T name alias (map _shift_line atexts) ftexts typename,
       mkField name alias arguments' fields' typename)
  end
with InlineFragment_render_call (self : InlineFragment)
  : string * InlineFragment :=
  match self with
  | mkInlineFragment type arguments fields typename =>
      let (atexts, arguments') := calls Argument_render_call arguments in
      let (ftexts, fields') := calls _render_field_call fields in
      (inline_fragment_jinja2 T type (map _shift_line atexts) ftexts typename,
       mkInlineFragment type arguments' fields' typename)
  end
with _render_field_call (v : Selection) : string * Selection :=
  match v with
  | SelStr s => (s, v)
  | SelFragment f => (("..." ++ Fragment_name f)%string, v)
  | SelField f =>
      let (text, f') := Field_render_call f in
      (_shift_line text, SelField f')
  | SelInlineFragment i =>
      let (text, i') := InlineFragment_render_call i in
      (_shift_line text, SelInlineFragment i')
  end.

Definition Fragment_render_call : Call Fragment := fun self =>
  let (ftexts, fields') := calls _render_field_call (Fragment_fields self) in
  (fragment_jinja2 T (Fragment_name self) (Fragment_type self) ftexts
                   (Fragment_typename self),
   mkFragment (Fragment_name self) (Fragment_type self) fields'
              (Fragment_typename self)).

Definition Query_render_call : Call Query := fun self =>
  let (atexts, arguments') :=
    calls Argument_render_call (Query_arguments self) in
  let (ftexts, fields') := calls _render_field_call (Query_fields self) in
  (query_jinja2 T (Query_name self) (Query_alias self)
                (map _shift_line atexts) (Query_typename self) ftexts,
   mkQuery (Query_name self) (Query_alias self) arguments'
           (Query_typename self) fields').

Definition Operation_render_call : Call Operation := fun self =>
  let (vtexts, variables') :=
    calls Variable_render_call (Operation_variables self) in
  let (qtexts, queries') :=
    calls Query_render_call (Operation_queries self) in
  let (ftexts, fragments') :=
    calls Fragment_render_call (Operation_fragments self) in
  (operation_jinja2 T (Operation_type self) (Operation_name self)
                    (map _shift_line vtexts) (map _shift_line qtexts) ftexts,
   mkOperation (Operation_type self) (Operation_name self) variables'
               queries' fragments').

End RenderCalls.

(** ** Order and nesting in a text *)

(** [x] occurs in [text], and [y] occurs after it. *)
Definition appears_before (x y text : string) : Prop :=
  exists a b c, text = (a ++ x ++ b ++ y ++ c)%string.

(** The lines of a text. *)
Definition lines (text : string) : list string := Str.split Str.LF text.

(** The entities that hold a list of selections. *)
Inductive Container : Type :=
| InField (f : Field)
| InInlineFragment (i : InlineFragment)
| InFragment (f : Fragment)
| InQuery (q : Query).

Definition Container_fields (c : Container) : list Selection :=
  match c with
  | InField f => Field_fields f
  | InInlineFragment i => InlineFragment_fields i
  | InFragment f => Fragment_fields f
  | InQuery q => Query_fields q
  end.

Definition Container_render (T : Templates) (c : Container) : string :=
  match c with
  | InField f => Field_render T f
  | InInlineFragment i => InlineFragment_render T i
  | InFragment f => Fragment_render T f
  | InQuery q => Query_render T q
  end.

(** The selections that [_render_field] renders and shifts: fields and
    inline fragments. *)
Definition is_node (s : Selection) : bool :=
  match s with
  | SelField _ | SelInlineFragment _ => true
  | SelStr _ | SelFragment _ => false
  end.

(** The children of a field or inline fragment met as a selection. *)
Definition children (s : Selection) : list Selection :=
  match s with
  | SelField f => Field_fields f
  | SelInlineFragment i => InlineFragment_fields i
  | SelStr _ | SelFragment _ => []
  end.

(** The text of a selection before its parent shifts it. *)
Definition render_node (T : Templates) (s : Selection) : string :=
  match s with
  | SelField f => Field_render T f
  | SelInlineFragment i => InlineFragment_render T i
  | SelStr str => str
  | SelFragment f => ("..." ++ Fragment_name f)%string
  end.

(** [nested_at d c s]: the field or inline fragment [s] is [d] levels below
    the container [c]; its members are at depth 1. *)
Inductive nested_at : nat -> Container -> Selection -> Prop :=
| nested_member (c : Container) (s : Selection) :
    In s (Container_fields c) -> is_node s = true -> nested_at 1 c s
| nested_deeper (d : nat) (c : Container) (parent s : Selection) :
    nested_at d c parent -> In s (children parent) -> is_node s = true ->
    nested_at (S d) c s.

(** ** A fragment, spread and defined *)

Definition details_fragment : Fragment :=
  mkFragment "details" "Droid" [SelStr "primaryFunction"] false.

Definition spread_query : Query :=
  mkQuery "hero" None [] false [SelStr "name"; SelFragment details_fragment].

(** An operation that spreads [details] once and lists [definitions] as its
    fragments. *)
Definition spread_operation (definitions : list Fragment) : Operation :=
  mkOperation "query" None [] [spread_query] definitions.

(** An operation without its list of fragments. *)
Definition without_fragments (op : Operation) : Operation :=
  mkOperation (Operation_type op) (Operation_name op)
              (Operation_variables op) (Operation_queries op) [].


(** ** The nested fields of the [Field] docstring *)

Definition field2 : Field :=
  mkField "field2" None [] [SelStr "f1"; SelStr "f2"; SelStr "f3"] true.

Definition field1 : Field :=
  mkField "field1" None [] [SelField field2] true.

Definition nesting_query : Query :=
  mkQuery "query" None [] false [SelField field1].

Definition nesting_operation : Operation :=
  mkOperation "query" None [] [nesting_query] [].

(** ** Newlines and keyword arguments *)

(** The text with two spaces put behind each of its line feeds. *)
Fixpoint indent_newlines (text : string) : string :=
  match text with
  | EmptyString => EmptyString
  | String c rest =>
      String c (if Ascii.eqb c Str.LF
                then (Str.indent ++ indent_newlines rest)%string
                else indent_newlines rest)
  end.

(** The number of line feeds of a text. *)
Fixpoint newlines (text : string) : nat :=
  match text with
  | EmptyString => 0
  | String c rest => (if Ascii.eqb c Str.LF then 1 else 0) + newlines rest
  end.

(** [_shift_line] applied [d] times, as [d] containers one inside the other
    apply it to the text of their innermost member. *)
Fixpoint shift_times (d : nat) (text : string) : string :=
  match d with
  | O => text
  | S k => _shift_line (shift_times k text)
  end.

(** The keyword was passed, with the empty list. *)
Definition passed_empty {A : Type} (supplied : option (list A)) : bool :=
  match supplied with
  | Some [] => true
  | _ => false
  end.

(* ================================================================== *)
(** * Verification: names *)
(* ================================================================== *)

Section NameValidation.

Import Name.

Lemma assert_name_accepts (s : string) :
  is_name s = true -> assert_name s = inr s.
Proof.
  destruct s as [|first rest]; simpl; [discriminate|].
  intros H. apply andb_prop in H as [Hstart Hrest].
  now rewrite Hrest, Hstart.
Qed.

Lemma assert_name_rejects (s : string) :
  is_name s = false -> exists rule, assert_name s = inl (GraphQLError rule s).
Proof.
  destruct s as [|first rest]; simpl; intros H.
  - eexists; reflexivity.
  - destruct (all_name_continue rest); simpl.
    + rewrite andb_true_r in H. rewrite H. simpl. eexists; reflexivity.
    + eexists; reflexivity.
Qed.

(** A name validator that guards an [Optional[str]] field. *)
Lemma optional_name_accepts (s : string) :
  is_name s = true ->
  graphql_field_alias (Some s) = inr (Some s)
  /\ graphql_alias_alias (Some s) = inr (Some s)
  /\ graphql_operation_name (Some s) = inr (Some s).
Proof.
  intros H. unfold graphql_field_alias, graphql_alias_alias,
    graphql_operation_name.
  now rewrite (assert_name_accepts s H).
Qed.

Lemma assert_name_cases (s : string) :
  assert_name s = inr s
  \/ exists rule, assert_name s = inl (GraphQLError rule s).
Proof.
  destruct (is_name s) eqn:H.
  - left. now apply assert_name_accepts.
  - right. now apply assert_name_rejects.
Qed.

Lemma optional_name_cases (v : option string) :
  (graphql_field_alias v = inr v
   /\ graphql_alias_alias v = inr v
   /\ graphql_operation_name v = inr v)
  \/ exists rule s,
      graphql_field_alias v = inl (GraphQLError rule s)
      /\ graphql_alias_alias v = inl (GraphQLError rule s)
      /\ graphql_operation_name v = inl (GraphQLError rule s).
Proof.
  destruct v as [s|]; [|left; repeat split].
  unfold graphql_field_alias, graphql_alias_alias, graphql_operation_name.
  destruct (assert_name_cases s) as [H|[rule H]]; rewrite H.
  - left. repeat split.
  - right. exists rule, s. repeat split.
Qed.

End NameValidation.

Lemma legal_name_accepted (s : string) :
  Name.is_name s = true -> accepted_unchanged s.
Proof.
  intros H.
  pose proof (assert_name_accepts s H) as Ha.
  destruct (optional_name_accepts s H) as (Hfa & Haa & Hon).
  unfold accepted_unchanged.
  repeat split; try assumption; intros;
    unfold Variable_new, Argument_new, Field_new, Fragment_new, Query_new,
      Operation_new, Pydantic.required, Pydantic.field,
      graphql_variable_name, graphql_argument_name, graphql_field_name,
      graphql_fragment_name, graphql_query_name;
    rewrite ?Ha, ?Hfa, ?Haa, ?Hon; reflexivity.
Qed.

Lemma illegal_name_rejected (s : string) :
  Name.is_name s = false -> rejected s.
Proof.
  intros H.
  destruct (assert_name_rejects s H) as [rule Hr].
  exists rule. cbv zeta.
  repeat split; try assumption; intros;
    unfold Variable_new, Argument_new, Field_new, Fragment_new, Query_new,
      Operation_new, Pydantic.required, Pydantic.field,
      graphql_variable_name, graphql_argument_name, graphql_field_name,
      graphql_fragment_name, graphql_query_name, graphql_operation_name,
      graphql_field_alias, graphql_alias_alias;
    rewrite ?Hr; try reflexivity.
  destruct type; reflexivity.
Qed.

(** C5: for every string [s] of the name grammar, name validation returns [s]
    unchanged at each of the eight validated places ([Variable.name],
    [Argument.name], [Field.name], [Field.alias], [Fragment.name],
    [Query.name], [Query.alias], [Operation.name]), and the constructors keep
    it; for every string outside the grammar validation raises the naming
    error carrying that string. *)
Theorem name_validation (s : string) :
  if Name.is_name s then accepted_unchanged s else rejected s.
Proof.
  destruct (Name.is_name s) eqn:H.
  - now apply legal_name_accepted.
  - now apply illegal_name_rejected.
Qed.

(** The three kinds of violation the grammar names, and the reserved prefix,
    which the grammar of names does not forbid. *)
Example name_examples :
  Name.is_name "" = false
  /\ Name.is_name "1abc" = false
  /\ Name.is_name "a-b" = false
  /\ Name.is_name "hero_2" = true
  /\ Name.assert_name "__typename" = inr "__typename".
Proof. repeat split. Qed.

(* ================================================================== *)
(** * Verification: construction *)
(* ================================================================== *)

(** ** The operation type *)

Lemma hero_query_constructed :
  Query_new "hero" None None None (Some [SelStr "name"]) = inr hero_query.
Proof. reflexivity. Qed.

(** No validator is attached to [type]: whatever string is passed is
    stored. *)
Lemma Operation_type_stored (type : string) (name : option string)
    (variables : option (list VariableT)) (queries : option (list Query))
    (fragments : option (list Fragment)) (op : Operation) :
  Operation_new (Some type) name variables queries fragments = inr op ->
  Operation_type op = type.
Proof.
  unfold Operation_new, Pydantic.required, Pydantic.field.
  destruct (graphql_operation_name name) as [[]|n],
    variables as [vs|], queries as [qs|], fragments as [fs|];
    simpl; try discriminate;
    destruct (graphql_queries qs) as [[]|qs']; simpl; try discriminate.
  intros H. injection H as <-. reflexivity.
Qed.

(** C1: the call [Operation(type="foo", variables=[], queries=[hero],
    fragments=[])] returns an operation whose type is ["foo"], a string that
    is not among [_supported_types]: the constructor does not reject it. *)
Theorem Operation_type_not_validated :
  exists op,
    Operation_new (Some "foo") None (Some []) (Some [hero_query]) (Some [])
    = inr op
    /\ Operation_type op = "foo"
    /\ ~ In (Operation_type op) _supported_types.
Proof.
  eexists. split; [reflexivity|]. split; [reflexivity|].
  simpl. intros [H|[H|[H|[]]]]; discriminate.
Qed.

(** ** Empty selections *)

(** C2 as it is stated fails: the name of a fragment is validated before its
    fields, and the error of [assert_name] is not collected but raised, so
    [Fragment(name="1f", type="Droid", fields=[])] raises the naming error
    and not the error of the empty selection. *)
Lemma Fragment_empty_fields_name_first :
  Fragment_new "1f" "Droid" (Some []) None
  = inl (GraphQLError "Names must start with [_a-zA-Z]." "1f")
  /\ Fragment_new "1f" "Droid" (Some []) None
     <> inl (empty_fields_error "fragment").
Proof. split; [reflexivity|discriminate]. Qed.

(** C2, amended: a constructor that is passed an empty [fields] list, and
    the constructor of [Operation] passed its three lists with an empty
    [queries] list, never returns an entity; it raises during construction.
    What it raises is the error of the empty selection unless a field
    declared earlier raises first: an illegal name or alias raises the naming
    error. *)
Theorem empty_selection_rejected :
  (forall type arguments typename,
      InlineFragment_new type arguments (Some []) typename
      = inl (empty_fields_error "inline fragment"))
  /\ (forall name type typename,
         Fragment_new name type (Some []) typename
         = match graphql_fragment_name name with
           | inl exc => inl exc
           | inr _ => inl (empty_fields_error "fragment")
           end)
  /\ (forall name alias arguments typename,
         Query_new name alias arguments typename (Some [])
         = match graphql_query_name name with
           | inl exc => inl exc
           | inr _ =>
               match graphql_alias_alias alias with
               | inl exc => inl exc
               | inr _ => inl (empty_fields_error "query")
               end
           end)
  /\ (forall type name variables fragments,
         Operation_new type name (Some variables) (Some []) (Some fragments)
         = match graphql_operation_name name with
           | inl exc => inl exc
           | inr _ => inl empty_queries_error
           end).
Proof.
  repeat split; intros.
  - unfold InlineFragment_new, Pydantic.field.
    destruct arguments, typename; reflexivity.
  - unfold Fragment_new, Pydantic.required, Pydantic.field.
    unfold graphql_fragment_name.
    destruct (assert_name_cases name) as [H|[rule H]]; rewrite H;
      destruct typename; reflexivity.
  - unfold Query_new, Pydantic.required, Pydantic.field.
    unfold graphql_query_name.
    destruct (assert_name_cases name) as [H|[rule H]]; rewrite H;
      [|reflexivity].
    destruct (optional_name_cases alias) as [(_ & H' & _)|(r & a & _ & H' & _)];
      rewrite H'; destruct arguments, typename; reflexivity.
  - unfold Operation_new, Pydantic.required, Pydantic.field.
    destruct (optional_name_cases name) as [(_ & _ & H)|(r & a & _ & _ & H)];
      rewrite H; destruct type; reflexivity.
Qed.

(** The validator of [fields] does not run on the default: an inline
    fragment, a fragment and a query constructed without the keyword
    [fields] hold the empty list. *)
Lemma default_fields_not_validated :
  InlineFragment_new "Droid" None None None
  = inr (mkInlineFragment "Droid" [] [] false)
  /\ Fragment_new "details" "Droid" None None
     = inr (mkFragment "details" "Droid" [] false)
  /\ Query_new "hero" None None None None
     = inr (mkQuery "hero" None [] false []).
Proof. repeat split. Qed.

(** ** Fields without selection *)

(** C10: with a legal name (and a legal alias when there is one), the
    constructor of [Field] returns a field whether [fields] is absent or the
    empty list; the field has no child, and [render] returns the text its
    template makes of an empty list of children. *)
Theorem Field_empty_fields_constructed
    (T : Templates) (name : string) (alias : option string)
    (arguments : option (list Argument)) (typename : option bool)
    (fields : option (list Selection)) :
  Name.is_name name = true ->
  alias_ok alias = true ->
  or_default fields [] = [] ->
  exists f,
    Field_new name alias arguments fields typename = inr f
    /\ Field_fields f = []
    /\ f = mkField name alias (or_default arguments []) []
                   (or_default typename false)
    /\ Field_render T f
       = field_jinja2 T name alias
           (render_arguments T (or_default arguments [])) []
           (or_default typename false).
Proof.
  intros Hname Halias Hfields.
  exists (mkField name alias (or_default arguments []) []
                  (or_default typename false)).
  repeat split.
  unfold Field_new, Pydantic.required, Pydantic.field, graphql_field_name.
  rewrite (assert_name_accepts name Hname).
  assert (Ha : graphql_field_alias alias = inr alias).
  { destruct alias as [a|]; [|reflexivity].
    simpl in Halias. unfold graphql_field_alias.
    now rewrite (assert_name_accepts a Halias). }
  rewrite Ha.
  destruct fields as [fs|]; simpl in Hfields; [subst fs|];
    destruct arguments, typename; reflexivity.
Qed.

Lemma Field_empty_fields_constructed_witness :
  Name.is_name "name" = true
  /\ alias_ok None = true
  /\ or_default (Some (@nil Selection)) [] = []
  /\ exists f,
      Field_new "name" None None (Some []) None = inr f
      /\ Field_fields f = []
      /\ f = mkField "name" None [] [] false
      /\ Field_render spec_templates f = "name".
Proof.
  repeat (split; [reflexivity|]).
  exact (Field_empty_fields_constructed spec_templates "name" None None None
           (Some []) eq_refl eq_refl eq_refl).
Defined.

(* ================================================================== *)
(** * Verification: variables and arguments *)
(* ================================================================== *)

(** C9: [Variable(name="episode", type="Episode", default="JEDI")] is
    constructed, and its [render] returns [$episode: Episode = JEDI]. *)
Theorem Variable_episode :
  exists v,
    Variable_new "episode" "Episode" (Some "JEDI") = inr v
    /\ Variable_render spec_templates v = "$episode: Episode = JEDI".
Proof. eexists. split; reflexivity. Qed.

(** C8: an argument whose value is a variable hands its template the name of
    the argument and the name of the variable, nothing else; the text is
    [name: $<variable name>], and two variables of the same name with
    different types and defaults give the same text. *)
Theorem Argument_render_Variable
    (T : Templates) (name vname type type' : string)
    (default default' : option string) :
  let v := mkVariable vname type default in
  let v' := mkVariable vname type' default' in
  Argument_render T (mkArgument name (ValueVariable v))
  = argument_key_variable_jinja2 T name vname
  /\ Argument_render spec_templates (mkArgument name (ValueVariable v))
     = (name ++ ": $" ++ vname)%string
  /\ Argument_render T (mkArgument name (ValueVariable v))
     = Argument_render T (mkArgument name (ValueVariable v')).
Proof. repeat split. Qed.

(* ================================================================== *)
(** * Facts on [split], [join] and [_shift_line] *)
(* ================================================================== *)

Module StrFacts.

Import Str.

Lemma append_assoc (a b c : string) :
  ((a ++ b) ++ c = a ++ b ++ c)%string.
Proof. induction a as [|x a IH]; simpl; [reflexivity|now rewrite IH]. Qed.

Lemma append_nil_r (a : string) : (a ++ "" = a)%string.
Proof. induction a as [|x a IH]; simpl; [reflexivity|now rewrite IH]. Qed.

Lemma split_not_nil (sep : ascii) (text : string) : split sep text <> [].
Proof.
  destruct text as [|c rest]; simpl; [discriminate|].
  destruct (Ascii.eqb c sep); [discriminate|].
  destruct (split sep rest); discriminate.
Qed.

(** Cutting a text at a separator cuts the list of its pieces. *)
Lemma split_app (sep : ascii) (a b : string) :
  split sep (a ++ String sep b) = split sep a ++ split sep b.
Proof.
  induction a as [|c a IH]; simpl.
  - now rewrite Ascii.eqb_refl.
  - destruct (Ascii.eqb c sep).
    + now rewrite IH.
    + rewrite IH.
      destruct (split sep a) as [|p ps] eqn:E.
      * now apply split_not_nil in E.
      * reflexivity.
Qed.

Lemma split_pieces_free (sep : ascii) (text : string) :
  Forall (free sep) (split sep text).
Proof.
  induction text as [|c rest IH]; simpl.
  - constructor; [reflexivity|constructor].
  - destruct (Ascii.eqb c sep) eqn:E.
    + constructor; [reflexivity|assumption].
    + destruct (split sep rest) as [|p ps]; [repeat constructor|].
      * unfold free. simpl. now rewrite E.
      * inversion IH as [|? ? Hp Hps]; subst.
        constructor; [|assumption].
        unfold free in *. simpl. now rewrite E, Hp.
Qed.

Lemma indent_free (piece : string) :
  free LF piece -> free LF (indent ++ piece).
Proof. unfold free, indent. simpl. now intros ->. Qed.

(** The pieces of an indented, joined list of lines. *)
Lemma split_indent_join (pieces : list string) :
  pieces <> [] ->
  Forall (free LF) pieces ->
  split LF (indent ++ join (nl ++ indent) pieces)
  = map (append indent) pieces.
Proof.
  induction pieces as [|p [|q r] IH]; intros Hne Hfree.
  - contradiction.
  - inversion Hfree; subst. simpl join. simpl map.
    now apply indent_free.
  - inversion Hfree as [|? ? Hp Hrest]; subst.
    change (join (nl ++ indent) (p :: q :: r))
      with (p ++ (nl ++ indent) ++ join (nl ++ indent) (q :: r))%string.
    replace (indent ++ p ++ (nl ++ indent) ++ join (nl ++ indent) (q :: r))%string
      with ((indent ++ p) ++ String LF (indent ++ join (nl ++ indent) (q :: r)))%string
      by (unfold nl; rewrite !append_assoc; reflexivity).
    rewrite split_app, (indent_free p Hp), IH; [reflexivity|discriminate|assumption].
Qed.

(** [_shift_line] behind one indentation: every line of the text, the
    first one too, is one level deeper. *)
Lemma split_indent_shift_line (text : string) :
  split LF (indent ++ _shift_line text)
  = map (append indent) (split LF text).
Proof.
  unfold _shift_line.
  apply (split_indent_join (split LF text)).
  - apply split_not_nil.
  - apply split_pieces_free.
Qed.

(** [_shift_line] alone leaves the first line where it is. *)
Lemma split_shift_line (text : string) :
  split LF (_shift_line text)
  = match split LF text with
    | first :: others => first :: map (append indent) others
    | [] => []
    end.
Proof.
  unfold _shift_line.
  pose proof (split_pieces_free LF text) as Hfree.
  pose proof (split_not_nil LF text) as Hne.
  destruct (split LF text) as [|p ps]; [contradiction|].
  inversion Hfree as [|? ? Hp Hps]; subst.
  destruct ps as [|q r]; [exact Hp|].
  change (join (nl ++ "  ") (p :: q :: r))
    with (p ++ String LF (indent ++ join (nl ++ indent) (q :: r)))%string.
  rewrite split_app, Hp, split_indent_join; [reflexivity|discriminate|assumption].
Qed.

End StrFacts.

(* ================================================================== *)
(** * Verification: [render] reads and does not write *)
(* ================================================================== *)

Section Purity.

Variable T : Templates.

Lemma calls_pure {A : Type} (call : Call A) (render : A -> string)
    (l : list A) :
  Forall (fun x => call x = (render x, x)) l ->
  calls call l = (map render l, l).
Proof.
  induction 1 as [|x rest Hx _ IH]; simpl; [reflexivity|].
  now rewrite Hx, IH.
Qed.

Lemma calls_pure_all {A : Type} (call : Call A) (render : A -> string) :
  (forall x, call x = (render x, x)) ->
  forall l, calls call l = (map render l, l).
Proof.
  intros H l. apply calls_pure. apply Forall_forall. intros x _. apply H.
Qed.

Lemma repeat_call_pure {A : Type} (call : Call A) (render : A -> string) :
  (forall x, call x = (render x, x)) ->
  forall n self, repeat_call call n self = (repeat (render self) n, self).
Proof.
  intros H n self. induction n as [|k IH]; simpl; [reflexivity|].
  now rewrite H, IH.
Qed.

Lemma Argument_render_call_pure (a : Argument) :
  Argument_render_call T a = (Argument_render T a, a).
Proof.
  induction a using Argument_induction; simpl; try reflexivity.
  - now rewrite IHa.
  - rewrite (calls_pure _ (Argument_render T) l H).
    now rewrite map_map.
Qed.

Lemma arguments_calls_pure (l : list Argument) :
  calls (Argument_render_call T) l = (map (Argument_render T) l, l).
Proof. apply calls_pure_all, Argument_render_call_pure. Qed.

Lemma Field_render_call_pure (f : Field) :
  Field_render_call T f = (Field_render T f, f).
Proof.
  apply (Field_induction
           (fun f => Field_render_call T f = (Field_render T f, f))
           (fun i => InlineFragment_render_call T i
                     = (InlineFragment_render T i, i))
           (fun s => _render_field_call T s = (_render_field T s, s)));
    intros; simpl; try reflexivity.
  - rewrite arguments_calls_pure, (calls_pure _ (_render_field T) fields H).
    unfold render_arguments. now rewrite map_map.
  - rewrite arguments_calls_pure, (calls_pure _ (_render_field T) fields H).
    unfold render_arguments. now rewrite map_map.
  - now rewrite H.
  - now rewrite H.
Qed.

Lemma InlineFragment_render_call_pure (i : InlineFragment) :
  InlineFragment_render_call T i = (InlineFragment_render T i, i).
Proof.
  apply (InlineFragment_induction
           (fun f => Field_render_call T f = (Field_render T f, f))
           (fun i => InlineFragment_render_call T i
                     = (InlineFragment_render T i, i))
           (fun s => _render_field_call T s = (_render_field T s, s)));
    intros; simpl; try reflexivity.
  - rewrite arguments_calls_pure, (calls_pure _ (_render_field T) fields H).
    unfold render_arguments. now rewrite map_map.
  - rewrite arguments_calls_pure, (calls_pure _ (_render_field T) fields H).
    unfold render_arguments. now rewrite map_map.
  - now rewrite H.
  - now rewrite H.
Qed.

Lemma _render_field_call_pure (s : Selection) :
  _render_field_call T s = (_render_field T s, s).
Proof.
  destruct s; simpl; try reflexivity.
  - now rewrite Field_render_call_pure.
  - now rewrite InlineFragment_render_call_pure.
Qed.

Lemma Fragment_render_call_pure (f : Fragment) :
  Fragment_render_call T f = (Fragment_render T f, f).
Proof.
  unfold Fragment_render_call, Fragment_render.
  rewrite (calls_pure_all _ _ _render_field_call_pure).
  now destruct f.
Qed.

Lemma Query_render_call_pure (q : Query) :
  Query_render_call T q = (Query_render T q, q).
Proof.
  unfold Query_render_call, Query_render, render_arguments.
  rewrite arguments_calls_pure, (calls_pure_all _ _ _render_field_call_pure).
  rewrite map_map. now destruct q.
Qed.

Lemma Variable_render_call_pure (v : VariableT) :
  Variable_render_call T v = (Variable_render T v, v).
Proof. reflexivity. Qed.

Lemma Operation_render_call_pure (op : Operation) :
  Operation_render_call T op = (Operation_render T op, op).
Proof.
  unfold Operation_render_call, Operation_render.
  rewrite (calls_pure_all _ _ Variable_render_call_pure),
    (calls_pure_all _ _ Query_render_call_pure),
    (calls_pure_all _ _ Fragment_render_call_pure).
  rewrite !map_map. now destruct op.
Qed.

End Purity.

(** C7: for each of the seven kinds of entity, any number [n] of calls of
    [render] on an entity return [n] times the same text, and leave the
    entity, its lists and their members as they were. *)
Theorem render_pure_deterministic (T : Templates) (n : nat) :
  (forall v, repeat_call (Variable_render_call T) n v
             = (repeat (Variable_render T v) n, v))
  /\ (forall a, repeat_call (Argument_render_call T) n a
                = (repeat (Argument_render T a) n, a))
  /\ (forall f, repeat_call (Field_render_call T) n f
                = (repeat (Field_render T f) n, f))
  /\ (forall i, repeat_call (InlineFragment_render_call T) n i
                = (repeat (InlineFragment_render T i) n, i))
  /\ (forall f, repeat_call (Fragment_render_call T) n f
                = (repeat (Fragment_render T f) n, f))
  /\ (forall q, repeat_call (Query_render_call T) n q
                = (repeat (Query_render T q) n, q))
  /\ (forall op, repeat_call (Operation_render_call T) n op
                 = (repeat (Operation_render T op) n, op)).
Proof.
  repeat split; intros; apply repeat_call_pure; intros.
  - apply Variable_render_call_pure.
  - apply Argument_render_call_pure.
  - apply Field_render_call_pure.
  - apply InlineFragment_render_call_pure.
  - apply Fragment_render_call_pure.
  - apply Query_render_call_pure.
  - apply Operation_render_call_pure.
Qed.

(* ================================================================== *)
(** * Facts on the layout of the templates *)
(* ================================================================== *)

Module Layout.

Import Str StrFacts SpecTemplates.

Lemma join_cons (sep x : string) (rest : list string) :
  rest <> [] -> join sep (x :: rest) = (x ++ sep ++ join sep rest)%string.
Proof. destruct rest; [contradiction|reflexivity]. Qed.

Lemma app_cons_not_nil {A : Type} (pre : list A) (x : A) (post : list A) :
  pre ++ x :: post <> [].
Proof. destruct pre; discriminate. Qed.

(** A member of a joined list, with what follows it. *)
Lemma join_focus_tail (sep : string) (pre : list string) (x : string)
    (rest : list string) :
  rest <> [] ->
  exists a, join sep (pre ++ x :: rest)
            = (a ++ x ++ sep ++ join sep rest)%string.
Proof.
  intros Hrest. induction pre as [|p pre IH].
  - exists ""%string. simpl app. now rewrite join_cons.
  - destruct IH as [a IH].
    exists (p ++ sep ++ a)%string.
    change ((p :: pre) ++ x :: rest) with (p :: (pre ++ x :: rest)).
    rewrite join_cons by apply app_cons_not_nil.
    rewrite IH, !append_assoc. reflexivity.
Qed.

Lemma join_focus (sep : string) (pre : list string) (x : string)
    (post : list string) :
  exists a b, join sep (pre ++ x :: post) = (a ++ x ++ b)%string.
Proof.
  destruct post as [|y post].
  - induction pre as [|p pre IH].
    + exists ""%string, ""%string. simpl. now rewrite append_nil_r.
    + destruct IH as (a & b & IH).
      exists (p ++ sep ++ a)%string, b.
      change ((p :: pre) ++ [x]) with (p :: (pre ++ [x])).
      rewrite join_cons by apply app_cons_not_nil.
      rewrite IH, !append_assoc. reflexivity.
  - destruct (join_focus_tail sep pre x (y :: post)) as [a H];
      [discriminate|].
    exists a, (sep ++ join sep (y :: post))%string. exact H.
Qed.

Lemma appears_before_prefix (x y text h : string) :
  appears_before x y text -> appears_before x y (h ++ text).
Proof.
  intros (a & b & c & ->). exists (h ++ a)%string, b, c.
  now rewrite append_assoc.
Qed.

Lemma appears_before_suffix (x y text k : string) :
  appears_before x y text -> appears_before x y (text ++ k).
Proof.
  intros (a & b & c & ->). exists a, b, (c ++ k)%string.
  now rewrite !append_assoc.
Qed.

(** [join] keeps the order of the members. *)
Lemma join_before (sep : string) (pre : list string) (x : string)
    (mid : list string) (y : string) (post : list string) :
  appears_before x y (join sep (pre ++ x :: mid ++ y :: post)).
Proof.
  destruct (join_focus_tail sep pre x (mid ++ y :: post)) as [a Ha];
    [apply app_cons_not_nil|].
  destruct (join_focus sep mid y post) as (a' & c & Hy).
  exists a, (sep ++ a')%string, c.
  rewrite Ha, Hy, !append_assoc. reflexivity.
Qed.

Lemma parenthesized_before (pre : list string) (x : string)
    (mid : list string) (y : string) (post : list string) :
  appears_before x y (parenthesized (pre ++ x :: mid ++ y :: post)).
Proof.
  unfold parenthesized.
  destruct (pre ++ x :: mid ++ y :: post) as [|m ms] eqn:E;
    [now apply app_cons_not_nil in E|].
  rewrite <- E.
  apply appears_before_prefix, appears_before_suffix, join_before.
Qed.

Lemma selection_block_before (typename : bool) (pre : list string)
    (x : string) (mid : list string) (y : string) (post : list string) :
  appears_before x y
    (selection_block typename (pre ++ x :: mid ++ y :: post)).
Proof.
  unfold selection_block.
  rewrite app_assoc.
  destruct (((if typename then ["__typename"] else []) ++ pre)
              ++ x :: mid ++ y :: post) as [|m ms] eqn:E;
    [now apply app_cons_not_nil in E|].
  rewrite <- E.
  do 3 apply appears_before_prefix.
  apply appears_before_suffix, join_before.
Qed.

Lemma definitions_app (l1 l2 : list string) :
  definitions (l1 ++ l2) = (definitions l1 ++ definitions l2)%string.
Proof.
  induction l1 as [|b l1 IH]; simpl; [reflexivity|].
  now rewrite IH, !append_assoc.
Qed.

Lemma definitions_before (pre : list string) (x : string)
    (mid : list string) (y : string) (post : list string) :
  appears_before x y (definitions (pre ++ x :: mid ++ y :: post)).
Proof.
  exists (definitions pre ++ nl ++ nl)%string,
    (definitions mid ++ nl ++ nl)%string, (definitions post).
  rewrite definitions_app. simpl definitions.
  rewrite definitions_app. simpl definitions.
  rewrite !append_assoc. reflexivity.
Qed.

(** A member of a block, between what is above it and what is below. *)
Lemma block_focus (xs : list string) :
  forall (h y : string) (zs : list string) (k : string),
  exists A B,
    (h ++ nl ++ indent ++ join (nl ++ indent) (xs ++ y :: zs) ++ nl ++ k
     = A ++ String LF ((indent ++ y) ++ String LF B))%string.
Proof.
  induction xs as [|x xs IH]; intros h y zs k.
  - destruct zs as [|z zs].
    + exists h, k. simpl app. simpl join. unfold nl.
      rewrite !append_assoc. reflexivity.
    + exists h, (indent ++ join (nl ++ indent) (z :: zs) ++ nl ++ k)%string.
      simpl app. rewrite join_cons by discriminate. unfold nl.
      rewrite !append_assoc. reflexivity.
  - destruct (IH (h ++ nl ++ indent ++ x)%string y zs k) as (A & B & H).
    exists A, B. rewrite <- H.
    change ((x :: xs) ++ y :: zs) with (x :: (xs ++ y :: zs)).
    rewrite join_cons by apply app_cons_not_nil.
    rewrite !append_assoc. reflexivity.
Qed.

(** The lines of a block around one of its members. *)
Lemma block_lines (h : string) (xs : list string) (y : string)
    (zs : list string) (k : string) :
  exists above below,
    split LF (h ++ nl ++ indent ++ join (nl ++ indent) (xs ++ y :: zs)
                ++ nl ++ k)
    = above ++ split LF (indent ++ y) ++ below.
Proof.
  destruct (block_focus xs h y zs k) as (A & B & ->).
  exists (split LF A), (split LF B).
  now rewrite !split_app.
Qed.

Lemma selection_block_lines (h : string) (typename : bool)
    (pre : list string) (y : string) (post : list string) :
  exists above below,
    split LF (h ++ selection_block typename (pre ++ y :: post))
    = above ++ split LF (indent ++ y) ++ below.
Proof.
  unfold selection_block. rewrite app_assoc.
  destruct (((if typename then ["__typename"] else []) ++ pre) ++ y :: post)
    as [|m ms] eqn:E; [now apply app_cons_not_nil in E|].
  rewrite <- E.
  destruct (block_lines (h ++ " {")
              ((if typename then ["__typename"] else []) ++ pre) y post "}")
    as (above & below & H).
  exists above, below. rewrite <- H. rewrite !append_assoc. reflexivity.
Qed.

Lemma indent_by_indent (d : nat) (line : string) :
  indent_by d (indent ++ line) = (indent ++ indent_by d line)%string.
Proof.
  induction d as [|d IH]; cbn [indent_by]; [reflexivity|now rewrite IH].
Qed.

End Layout.

(* ================================================================== *)
(** * Verification: order *)
(* ================================================================== *)

Section Order.

Import Str StrFacts SpecTemplates Layout.

Local Abbreviation R := spec_templates.

Lemma Operation_render_spec type name variables queries fragments :
  Operation_render R (mkOperation type name variables queries fragments)
  = operation type name
      (map (fun v => _shift_line (Variable_render R v)) variables)
      (map (fun q => _shift_line (Query_render R q)) queries)
      (map (Fragment_render R) fragments).
Proof. reflexivity. Qed.

Lemma Query_render_spec name alias arguments typename fields :
  Query_render R (mkQuery name alias arguments typename fields)
  = (header name alias
     ++ parenthesized
          (map (fun a => _shift_line (Argument_render R a)) arguments)
     ++ selection_block typename (map (_render_field R) fields))%string.
Proof. reflexivity. Qed.

Lemma Field_render_spec name alias arguments fields typename :
  Field_render R (mkField name alias arguments fields typename)
  = (header name alias
     ++ parenthesized
          (map (fun a => _shift_line (Argument_render R a)) arguments)
     ++ selection_block typename (map (_render_field R) fields))%string.
Proof. reflexivity. Qed.

Lemma InlineFragment_render_spec type arguments fields typename :
  InlineFragment_render R (mkInlineFragment type arguments fields typename)
  = (("... on " ++ type)
     ++ parenthesized
          (map (fun a => _shift_line (Argument_render R a)) arguments)
     ++ selection_block typename (map (_render_field R) fields))%string.
Proof.
  change (InlineFragment_render R
            (mkInlineFragment type arguments fields typename))
    with ("... on "
          ++ type
          ++ parenthesized
               (map (fun a => _shift_line (Argument_render R a)) arguments)
          ++ selection_block typename (map (_render_field R) fields))%string.
  now rewrite append_assoc.
Qed.

Lemma Fragment_render_spec name type fields typename :
  Fragment_render R (mkFragment name type fields typename)
  = (("fragment " ++ name ++ " on " ++ type)
     ++ selection_block typename (map (_render_field R) fields))%string.
Proof.
  change (Fragment_render R (mkFragment name type fields typename))
    with ("fragment " ++ name ++ " on " ++ type
          ++ selection_block typename (map (_render_field R) fields))%string.
  now rewrite !append_assoc.
Qed.

Lemma Argument_render_list_spec name l :
  Argument_render R (mkArgument name (ValueArguments l))
  = argument_key_arguments name
      (map (fun a => _shift_line (Argument_render R a)) l).
Proof. reflexivity. Qed.

Ltac expose :=
  rewrite ?Operation_render_spec, ?Query_render_spec, ?Field_render_spec,
    ?InlineFragment_render_spec, ?Fragment_render_spec,
    ?Argument_render_list_spec;
  repeat (rewrite map_app || rewrite map_cons).

Lemma operation_variables_before type name pre x mid y post queries fragments :
  appears_before x y
    (operation type name (pre ++ x :: mid ++ y :: post) queries fragments).
Proof.
  unfold operation.
  do 2 apply appears_before_prefix.
  apply appears_before_suffix, parenthesized_before.
Qed.

Lemma operation_queries_before type name variables pre x mid y post fragments :
  appears_before x y
    (operation type name variables (pre ++ x :: mid ++ y :: post) fragments).
Proof.
  unfold operation.
  do 6 apply appears_before_prefix.
  apply appears_before_suffix, join_before.
Qed.

Lemma operation_fragments_before type name variables queries pre x mid y post :
  appears_before x y
    (operation type name variables queries (pre ++ x :: mid ++ y :: post)).
Proof.
  unfold operation.
  do 9 apply appears_before_prefix.
  apply definitions_before.
Qed.

Lemma arguments_before (h : string) typename fields pre x mid y post :
  appears_before x y
    (h ++ parenthesized (pre ++ x :: mid ++ y :: post)
       ++ selection_block typename fields).
Proof.
  apply appears_before_prefix, appears_before_suffix, parenthesized_before.
Qed.

Lemma fields_before (h : string) arguments typename pre x mid y post :
  appears_before x y
    (h ++ parenthesized arguments
       ++ selection_block typename (pre ++ x :: mid ++ y :: post)).
Proof.
  do 2 apply appears_before_prefix. apply selection_block_before.
Qed.

(** C6: in the text of an operation the block of an earlier query stands
    before the block of a later one, and the same holds for its variables and
    its fragment definitions, for the arguments and the selections of a
    query, a field and an inline fragment, for the selections of a fragment,
    and for the members of a list argument; the two members may be equal, and
    then both copies are in the text. *)
Theorem render_preserves_order :
  (forall type name variables pre q1 mid q2 post fragments,
      appears_before (_shift_line (Query_render R q1))
                     (_shift_line (Query_render R q2))
        (Operation_render R
           (mkOperation type name variables (pre ++ q1 :: mid ++ q2 :: post)
                        fragments)))
  /\ (forall type name pre v1 mid v2 post queries fragments,
         appears_before (_shift_line (Variable_render R v1))
                        (_shift_line (Variable_render R v2))
           (Operation_render R
              (mkOperation type name (pre ++ v1 :: mid ++ v2 :: post) queries
                           fragments)))
  /\ (forall type name variables queries pre f1 mid f2 post,
         appears_before (Fragment_render R f1) (Fragment_render R f2)
           (Operation_render R
              (mkOperation type name variables queries
                           (pre ++ f1 :: mid ++ f2 :: post))))
  /\ (forall name alias pre a1 mid a2 post typename fields,
         appears_before (_shift_line (Argument_render R a1))
                        (_shift_line (Argument_render R a2))
           (Query_render R
              (mkQuery name alias (pre ++ a1 :: mid ++ a2 :: post) typename
                       fields)))
  /\ (forall name alias arguments typename pre s1 mid s2 post,
         appears_before (_render_field R s1) (_render_field R s2)
           (Query_render R
              (mkQuery name alias arguments typename
                       (pre ++ s1 :: mid ++ s2 :: post))))
  /\ (forall name alias pre a1 mid a2 post fields typename,
         appears_before (_shift_line (Argument_render R a1))
                        (_shift_line (Argument_render R a2))
           (Field_render R
              (mkField name alias (pre ++ a1 :: mid ++ a2 :: post) fields
                       typename)))
  /\ (forall name alias arguments pre s1 mid s2 post typename,
         appears_before (_render_field R s1) (_render_field R s2)
           (Field_render R
              (mkField name alias arguments (pre ++ s1 :: mid ++ s2 :: post)
                       typename)))
  /\ (forall type pre a1 mid a2 post fields typename,
         appears_before (_shift_line (Argument_render R a1))
                        (_shift_line (Argument_render R a2))
           (InlineFragment_render R
              (mkInlineFragment type (pre ++ a1 :: mid ++ a2 :: post) fields
                                typename)))
  /\ (forall type arguments pre s1 mid s2 post typename,
         appears_before (_render_field R s1) (_render_field R s2)
           (InlineFragment_render R
              (mkInlineFragment type arguments
                                (pre ++ s1 :: mid ++ s2 :: post) typename)))
  /\ (forall name type pre s1 mid s2 post typename,
         appears_before (_render_field R s1) (_render_field R s2)
           (Fragment_render R
              (mkFragment name type (pre ++ s1 :: mid ++ s2 :: post)
                          typename)))
  /\ (forall name pre a1 mid a2 post,
         appears_before (_shift_line (Argument_render R a1))
                        (_shift_line (Argument_render R a2))
           (Argument_render R
              (mkArgument name
                          (ValueArguments (pre ++ a1 :: mid ++ a2 :: post))))).
Proof.
  repeat split; intros; expose.
  - apply operation_queries_before.
  - apply operation_variables_before.
  - apply operation_fragments_before.
  - apply arguments_before.
  - apply fields_before.
  - apply arguments_before.
  - apply fields_before.
  - apply arguments_before.
  - apply fields_before.
  - apply appears_before_prefix, selection_block_before.
  - unfold argument_key_arguments. do 4 apply appears_before_prefix.
    apply appears_before_suffix, join_before.
Qed.

End Order.

(* ================================================================== *)
(** * Verification: fragments *)
(* ================================================================== *)

Section Fragments.

Import Str StrFacts SpecTemplates Layout.

Local Abbreviation R := spec_templates.

Lemma spread_constructed :
  Fragment_new "details" "Droid" (Some [SelStr "primaryFunction"]) None
  = inr details_fragment
  /\ Query_new "hero" None None None
               (Some [SelStr "name"; SelFragment details_fragment])
     = inr spread_query
  /\ (forall definitions,
         Operation_new None None (Some []) (Some [spread_query])
                       (Some definitions)
         = inr (spread_operation definitions)).
Proof. repeat split. Qed.

(** C3 as it is stated fails: nothing ties a spread to the list of fragments
    of the operation.  The operation below is constructed, its query spreads
    [details], and with an empty list of fragments the body of [details] is
    not handed to the template of the operation and is not in the text at
    all; with [details] listed twice it is there twice. *)
Lemma spread_without_single_definition :
  Operation_new None None (Some []) (Some [spread_query]) (Some [])
  = inr (spread_operation [])
  /\ In (SelFragment details_fragment) (Query_fields spread_query)
  /\ (forall T : Templates,
         Operation_render T (spread_operation [])
         = operation_jinja2 T "query" None []
             [_shift_line
                (query_jinja2 T "hero" None [] false ["name"; "...details"])]
             [])
  /\ occurrences (Fragment_render R details_fragment)
                 (Operation_render R (spread_operation [])) = 0
  /\ occurrences (Fragment_render R details_fragment)
                 (Operation_render R
                    (spread_operation [details_fragment; details_fragment]))
     = 2.
Proof.
  split; [reflexivity|]. split; [right; left; reflexivity|].
  split; [reflexivity|].
  split; vm_compute; reflexivity.
Qed.

(** C3, amended: where a fragment is a member of the [fields] of a field, an
    inline fragment, a fragment or a query, the template of that container
    receives for it the spread [...<name>] and nothing of its type, fields or
    flag; [Operation.render] hands its template one full body per member of
    its list of fragments, in the order of the list, and the text is the text
    of the operation without fragments followed by these bodies, each after
    an empty line and not shifted; neither depends on how often the fragment
    is spread. *)
Theorem fragment_spread_and_definitions (T : Templates) :
  (forall f, _render_field T (SelFragment f)
             = ("..." ++ Fragment_name f)%string)
  /\ (forall name alias arguments pre f post typename,
         Field_render T
           (mkField name alias arguments (pre ++ SelFragment f :: post)
                    typename)
         = field_jinja2 T name alias (render_arguments T arguments)
             (map (_render_field T) pre
                ++ ("..." ++ Fragment_name f)%string
                :: map (_render_field T) post)
             typename)
  /\ (forall type arguments pre f post typename,
         InlineFragment_render T
           (mkInlineFragment type arguments (pre ++ SelFragment f :: post)
                             typename)
         = inline_fragment_jinja2 T type (render_arguments T arguments)
             (map (_render_field T) pre
                ++ ("..." ++ Fragment_name f)%string
                :: map (_render_field T) post)
             typename)
  /\ (forall name type pre f post typename,
         Fragment_render T
           (mkFragment name type (pre ++ SelFragment f :: post) typename)
         = fragment_jinja2 T name type
             (map (_render_field T) pre
                ++ ("..." ++ Fragment_name f)%string
                :: map (_render_field T) post)
             typename)
  /\ (forall name alias arguments typename pre f post,
         Query_render T
           (mkQuery name alias arguments typename
                    (pre ++ SelFragment f :: post))
         = query_jinja2 T name alias (render_arguments T arguments) typename
             (map (_render_field T) pre
                ++ ("..." ++ Fragment_name f)%string
                :: map (_render_field T) post))
  /\ (forall type name variables queries fragments,
         Operation_render T
           (mkOperation type name variables queries fragments)
         = operation_jinja2 T type name
             (map (fun v => _shift_line (Variable_render T v)) variables)
             (map (fun q => _shift_line (Query_render T q)) queries)
             (map (Fragment_render T) fragments))
  /\ (forall op,
         Operation_render R op
         = (Operation_render R (without_fragments op)
            ++ definitions (map (Fragment_render R)
                                (Operation_fragments op)))%string)
  /\ (forall body rest,
         definitions (body :: rest)
         = (nl ++ nl ++ body ++ definitions rest)%string).
Proof.
  repeat split; intros.
  - cbn [Field_render]. now rewrite map_app.
  - cbn [InlineFragment_render]. now rewrite map_app.
  - unfold Fragment_render. cbn [Fragment_fields]. now rewrite map_app.
  - unfold Query_render. cbn [Query_fields]. now rewrite map_app.
  - destruct op as [type name variables queries fragments].
    unfold without_fragments, Operation_render.
    cbn [Operation_type Operation_name Operation_variables Operation_queries
         Operation_fragments operation_jinja2 spec_templates templates map].
    unfold operation. cbn [definitions].
    rewrite !append_assoc. reflexivity.
Qed.

End Fragments.

(* ================================================================== *)
(** * Verification: indentation *)
(* ================================================================== *)

Section Indentation.

Import Str StrFacts SpecTemplates Layout.

Local Abbreviation R := spec_templates.

(** What [_render_field] returns for a field or an inline fragment. *)
Lemma _render_field_node (s : Selection) :
  is_node s = true -> _render_field R s = _shift_line (render_node R s).
Proof. destruct s; simpl; congruence. Qed.

(** A member of a selection block: its lines, one level deeper. *)
Lemma member_lines (h : string) (typename : bool) (fields : list Selection)
    (s : Selection) :
  In s fields -> is_node s = true ->
  exists above below,
    lines (h ++ selection_block typename (map (_render_field R) fields))
    = above ++ map (append indent) (lines (render_node R s)) ++ below.
Proof.
  intros Hin Hnode.
  destruct (in_split s fields Hin) as (pre & post & ->).
  rewrite map_app, map_cons.
  destruct (selection_block_lines h typename (map (_render_field R) pre)
              (_render_field R s) (map (_render_field R) post))
    as (above & below & H).
  exists above, below. unfold lines. rewrite H.
  now rewrite (_render_field_node s Hnode), split_indent_shift_line.
Qed.

Lemma Container_lines (c : Container) (s : Selection) :
  In s (Container_fields c) -> is_node s = true ->
  exists above below,
    lines (Container_render R c)
    = above ++ map (append indent) (lines (render_node R s)) ++ below.
Proof.
  destruct c as [[name alias arguments fields typename]
                |[type arguments fields typename]
                |[name type fields typename]
                |[name alias arguments typename fields]];
    cbn [Container_fields Container_render Field_fields
         InlineFragment_fields Fragment_fields Query_fields]; intros Hin Hnode.
  - change (Field_render R (mkField name alias arguments fields typename))
      with (header name alias
            ++ parenthesized (render_arguments R arguments)
            ++ selection_block typename (map (_render_field R) fields))%string.
    rewrite <- append_assoc. now apply member_lines.
  - change (InlineFragment_render R
              (mkInlineFragment type arguments fields typename))
      with ("... on " ++ type
            ++ parenthesized (render_arguments R arguments)
            ++ selection_block typename (map (_render_field R) fields))%string.
    rewrite <- !append_assoc. now apply member_lines.
  - change (Fragment_render R (mkFragment name type fields typename))
      with ("fragment " ++ name ++ " on " ++ type
            ++ selection_block typename (map (_render_field R) fields))%string.
    rewrite <- !append_assoc. now apply member_lines.
  - change (Query_render R (mkQuery name alias arguments typename fields))
      with (header name alias
            ++ parenthesized (render_arguments R arguments)
            ++ selection_block typename (map (_render_field R) fields))%string.
    rewrite <- append_assoc. now apply member_lines.
Qed.

Lemma node_lines (parent s : Selection) :
  In s (children parent) -> is_node s = true ->
  exists above below,
    lines (render_node R parent)
    = above ++ map (append indent) (lines (render_node R s)) ++ below.
Proof.
  destruct parent as [str|f|i|f]; cbn [children]; try contradiction.
  - apply (Container_lines (InField f)).
  - apply (Container_lines (InInlineFragment i)).
Qed.

(** The block of a query in the text of its operation. *)
Lemma query_lines (op : Operation) (q : Query) :
  In q (Operation_queries op) ->
  exists above below,
    lines (Operation_render R op)
    = above ++ map (append indent) (lines (Query_render R q)) ++ below.
Proof.
  destruct op as [type name variables queries fragments].
  cbn [Operation_queries]. intros Hin.
  destruct (in_split q queries Hin) as (pre & post & ->).
  change (Operation_render R
            (mkOperation type name variables (pre ++ q :: post) fragments))
    with (type ++ match name with Some n => " " ++ n | None => "" end
          ++ parenthesized
               (map (fun v => _shift_line (Variable_render R v)) variables)
          ++ " {" ++ nl ++ indent
          ++ join (nl ++ indent)
               (map (fun q => _shift_line (Query_render R q))
                    (pre ++ q :: post))
          ++ nl ++ "}"
          ++ definitions (map (Fragment_render R) fragments))%string.
  rewrite map_app, map_cons.
  destruct (block_lines
              (type ++ match name with Some n => " " ++ n | None => "" end
               ++ parenthesized
                    (map (fun v => _shift_line (Variable_render R v))
                         variables)
               ++ " {")
              (map (fun q => _shift_line (Query_render R q)) pre)
              (_shift_line (Query_render R q))
              (map (fun q => _shift_line (Query_render R q)) post)
              ("}" ++ definitions (map (Fragment_render R) fragments)))
    as (above & below & H).
  exists above, below. unfold lines.
  rewrite <- split_indent_shift_line, <- H.
  rewrite !append_assoc. reflexivity.
Qed.

Lemma map_indent_by_lines (d : nat) (above below inner : list string) :
  map (indent_by d) (above ++ map (append indent) inner ++ below)
  = map (indent_by d) above ++ map (indent_by (S d)) inner
    ++ map (indent_by d) below.
Proof.
  rewrite !map_app, map_map. do 2 f_equal.
  apply map_ext. intros line. apply indent_by_indent.
Qed.

Lemma nested_lines (d : nat) (c : Container) (s : Selection) :
  nested_at d c s ->
  exists above below,
    lines (Container_render R c)
    = above ++ map (indent_by d) (lines (render_node R s)) ++ below.
Proof.
  induction 1 as [c s Hin Hnode|d c parent s _ IH Hin Hnode].
  - apply Container_lines; assumption.
  - destruct IH as (above & below & IH).
    destruct (node_lines parent s Hin Hnode) as (a & b & Hp).
    rewrite IH, Hp, map_indent_by_lines.
    exists (above ++ map (indent_by d) a), (map (indent_by d) b ++ below).
    now rewrite <- !app_assoc.
Qed.

(** C4: a field or inline fragment that is [d] levels below a field, an
    inline fragment, a fragment or a query has all the lines of its own text
    in the text of that container, one after the other, each behind exactly
    [d] indentation levels of two spaces (a member of [fields] is one level
    below); in the text of an operation the same lines stand one level
    deeper than in the text of the query that holds them. *)
Theorem nesting_indents (d : nat) (c : Container) (s : Selection) :
  nested_at d c s ->
  (exists above below,
      lines (Container_render R c)
      = above ++ map (indent_by d) (lines (render_node R s)) ++ below)
  /\ (forall q op,
         c = InQuery q -> In q (Operation_queries op) ->
         exists above below,
           lines (Operation_render R op)
           = above ++ map (indent_by (S d)) (lines (render_node R s))
                   ++ below).
Proof.
  intros Hnested.
  destruct (nested_lines d c s Hnested) as (above & below & Hc).
  split; [now exists above, below|].
  intros q op -> Hin.
  destruct (query_lines op q Hin) as (a & b & Hq).
  cbn [Container_render] in Hc.
  rewrite Hq, Hc.
  exists (a ++ map (append indent) above),
    (map (append indent) below ++ b).
  rewrite !map_app, map_map, <- !app_assoc. reflexivity.
Qed.

Lemma nesting_indents_witness :
  nested_at 2 (InQuery nesting_query) (SelField field2)
  /\ (exists above below,
         lines (Container_render R (InQuery nesting_query))
         = above ++ map (indent_by 2) (lines (render_node R (SelField field2)))
                 ++ below)
  /\ (forall q op,
         InQuery nesting_query = InQuery q -> In q (Operation_queries op) ->
         exists above below,
           lines (Operation_render R op)
           = above ++ map (indent_by 3)
                          (lines (render_node R (SelField field2)))
                   ++ below).
Proof.
  assert (H : nested_at 2 (InQuery nesting_query) (SelField field2)).
  { apply nested_deeper with (parent := SelField field1).
    - apply nested_member; [simpl; auto|reflexivity].
    - simpl; auto.
    - reflexivity. }
  split; [exact H|].
  exact (nesting_indents 2 (InQuery nesting_query) (SelField field2) H).
Defined.

(** The example of the [Field] docstring, line by line. *)
Example nesting_operation_lines :
  Field_new "field2" None None
            (Some [SelStr "f1"; SelStr "f2"; SelStr "f3"]) (Some true)
  = inr field2
  /\ Field_new "field1" None None (Some [SelField field2]) (Some true)
     = inr field1
  /\ Query_new "query" None None None (Some [SelField field1])
     = inr nesting_query
  /\ Operation_new None None (Some []) (Some [nesting_query]) (Some [])
     = inr nesting_operation
  /\ lines (Field_render R field2)
     = ["field2 {"; "  __typename"; "  f1"; "  f2"; "  f3"; "}"]
  /\ lines (Operation_render R nesting_operation)
     = ["query {";
        "  query {";
        "    field1 {";
        "      __typename";
        "      field2 {";
        "        __typename";
        "        f1";
        "        f2";
        "        f3";
        "      }";
        "    }";
        "  }";
        "}"].
Proof. repeat split. Qed.

(** [_shift_line] by itself leaves the first line of a text in place; the
    indentation of that line comes from the template. *)
Example _shift_line_first_line :
  lines (_shift_line (Field_render R field2))
  = ["field2 {"; "    __typename"; "    f1"; "    f2"; "    f3"; "  }"].
Proof. reflexivity. Qed.

End Indentation.

(* ================================================================== *)
(** * Further properties: [_shift_line] *)
(* ================================================================== *)

Section ShiftLine.

Import Str StrFacts.

Lemma join_String (sep : string) (c : ascii) (p : string) (ps : list string) :
  join sep (String c p :: ps) = String c (join sep (p :: ps)).
Proof. destruct ps; reflexivity. Qed.

(** [split] then [join] with the two spaces: the line feeds, one by one. *)
Lemma join_split_indent_newlines (text : string) :
  join (nl ++ indent) (split LF text) = indent_newlines text.
Proof.
  induction text as [|c rest IH]; [reflexivity|].
  cbn [split indent_newlines].
  destruct (Ascii.eqb c LF) eqn:E.
  - apply Ascii.eqb_eq in E. subst c.
    destruct (split LF rest) as [|p ps] eqn:S;
      [now apply split_not_nil in S|].
    rewrite <- IH. reflexivity.
  - destruct (split LF rest) as [|p ps] eqn:S;
      [now apply split_not_nil in S|].
    rewrite join_String. now rewrite IH.
Qed.

Lemma join_split (text : string) : join nl (split LF text) = text.
Proof.
  induction text as [|c rest IH]; [reflexivity|].
  cbn [split].
  destruct (Ascii.eqb c LF) eqn:E.
  - apply Ascii.eqb_eq in E. subst c.
    destruct (split LF rest) as [|p ps] eqn:S;
      [now apply split_not_nil in S|].
    change (join nl (EmptyString :: p :: ps))
      with (String LF (join nl (p :: ps))).
    now rewrite IH.
  - destruct (split LF rest) as [|p ps] eqn:S;
      [now apply split_not_nil in S|].
    rewrite join_String. now rewrite IH.
Qed.

Lemma indent_newlines_app (a b : string) :
  indent_newlines (a ++ b)
  = (indent_newlines a ++ indent_newlines b)%string.
Proof.
  induction a as [|c a IH]; [reflexivity|].
  cbn [append indent_newlines]. rewrite IH.
  destruct (Ascii.eqb c LF); [|reflexivity].
  now rewrite append_assoc.
Qed.

Lemma indent_newlines_length (text : string) :
  String.length (indent_newlines text)
  = String.length text + 2 * newlines text.
Proof.
  induction text as [|c rest IH]; [reflexivity|].
  cbn [indent_newlines newlines String.length].
  destruct (Ascii.eqb c LF).
  - unfold indent. cbn [append String.length]. rewrite IH. lia.
  - rewrite IH. lia.
Qed.

Lemma indent_newlines_fixed (text : string) :
  newlines text = 0 -> indent_newlines text = text.
Proof.
  induction text as [|c rest IH]; [reflexivity|].
  cbn [indent_newlines newlines].
  destruct (Ascii.eqb c LF); [discriminate|].
  intros H. now rewrite IH.
Qed.

Lemma indent_newlines_injective (a : string) :
  forall b, indent_newlines a = indent_newlines b -> a = b.
Proof.
  induction a as [|c a IH]; intros [|c' b]; cbn [indent_newlines];
    try discriminate; [reflexivity|].
  intros H. injection H as Hc Hrest. subst c'.
  destruct (Ascii.eqb c LF).
  - unfold indent in Hrest. cbn [append] in Hrest.
    injection Hrest as Hrest. now rewrite (IH b Hrest).
  - now rewrite (IH b Hrest).
Qed.

(** X1: [_shift_line] puts two spaces behind every line feed of its text and
    changes nothing else. *)
Theorem _shift_line_indents_newlines (text : string) :
  _shift_line text = indent_newlines text.
Proof. unfold _shift_line. apply join_split_indent_newlines. Qed.

(** X2: [_shift_line] keeps the number of lines and the first line; every
    later line gets exactly two spaces in front. *)
Theorem _shift_line_lines (text : string) :
  List.length (lines (_shift_line text)) = List.length (lines text)
  /\ lines (_shift_line text)
     = match lines text with
       | first :: others => first :: map (append indent) others
       | [] => []
       end.
Proof.
  unfold lines. rewrite split_shift_line.
  destruct (split LF text) as [|first others]; [now split|].
  split; [|reflexivity]. cbn [List.length]. now rewrite length_map.
Qed.

(** X3: the shifted text is longer than the text by two characters for each
    of its line feeds. *)
Theorem _shift_line_length (text : string) :
  String.length (_shift_line text) = String.length text + 2 * newlines text.
Proof.
  unfold _shift_line. rewrite join_split_indent_newlines.
  apply indent_newlines_length.
Qed.

(** X4: [_shift_line] returns its text unchanged exactly when the text holds
    no line feed. *)
Theorem _shift_line_fixed_iff (text : string) :
  _shift_line text = text <-> newlines text = 0.
Proof.
  unfold _shift_line. rewrite join_split_indent_newlines. split.
  - intros H. pose proof (indent_newlines_length text) as L.
    rewrite H in L. lia.
  - apply indent_newlines_fixed.
Qed.

(** X5: [_shift_line] loses nothing: two texts with the same shifted text are
    the same text. *)
Theorem _shift_line_injective (a b : string) :
  _shift_line a = _shift_line b -> a = b.
Proof.
  unfold _shift_line. rewrite !join_split_indent_newlines.
  apply indent_newlines_injective.
Qed.

Lemma _shift_line_injective_witness :
  _shift_line ("hero {" ++ nl ++ "  name" ++ nl ++ "}")
  = _shift_line ("hero {" ++ nl ++ "  name" ++ nl ++ "}")
  /\ ("hero {" ++ nl ++ "  name" ++ nl ++ "}"
      = "hero {" ++ nl ++ "  name" ++ nl ++ "}")%string.
Proof.
  split; [reflexivity|].
  exact (_shift_line_injective _ _ eq_refl).
Defined.

(** X6: [d] applications of [_shift_line], one per enclosing container, leave
    the first line of a text in place and put exactly [d] indentation levels
    in front of every later line. *)
Theorem shift_times_lines (d : nat) (text : string) :
  lines (shift_times d text)
  = match lines text with
    | first :: others => first :: map (indent_by d) others
    | [] => []
    end.
Proof.
  unfold lines. induction d as [|d IH]; cbn [shift_times].
  - destruct (split LF text); [reflexivity|].
    f_equal. symmetry. apply map_id.
  - rewrite split_shift_line, IH.
    destruct (split LF text) as [|first others]; [reflexivity|].
    f_equal. now rewrite map_map.
Qed.

(** X7: [_shift_line] goes through concatenation: the shifted text of [a ++ b]
    is the shifted text of [a] followed by the shifted text of [b]. *)
Theorem _shift_line_app (a b : string) :
  _shift_line (a ++ b) = (_shift_line a ++ _shift_line b)%string.
Proof.
  unfold _shift_line. rewrite !join_split_indent_newlines.
  apply indent_newlines_app.
Qed.

(** X8: the lines of a text, joined again by line feeds, are the text: the
    [split] and [join] that [_shift_line] is made of lose and add nothing but
    the separator. *)
Theorem split_join_round_trip (text : string) :
  join nl (split LF text) = text
  /\ Forall (fun piece => newlines piece = 0) (split LF text).
Proof.
  split; [apply join_split|].
  induction text as [|c rest IH]; cbn [split].
  - repeat constructor.
  - destruct (Ascii.eqb c LF) eqn:E.
    + constructor; [reflexivity|assumption].
    + destruct (split LF rest) as [|p ps]; [repeat constructor|].
      * cbn [newlines]. now rewrite E.
      * inversion IH as [|? ? Hp Hps]; subst.
        constructor; [|assumption]. cbn [newlines]. now rewrite E.
Qed.

End ShiftLine.

(* ================================================================== *)
(** * Further properties: construction *)
(* ================================================================== *)

Section Outcomes.

Ltac unfold_new :=
  unfold Variable_new, Argument_new, Field_new, InlineFragment_new,
    Fragment_new, Query_new, Operation_new, Pydantic.required,
    Pydantic.field, graphql_variable_name, graphql_argument_name,
    graphql_field_name, graphql_fragment_name, graphql_query_name,
    graphql_field_alias, graphql_alias_alias, graphql_operation_name.

(** The two outcomes of [assert_name] on [n], with [is_name n] decided. *)
Ltac decide_name n :=
  let H := fresh "Hname" in
  destruct (Name.is_name n) eqn:H;
  [ rewrite (assert_name_accepts n H)
  | let rule := fresh "rule" in
    let Hr := fresh "Hrule" in
    destruct (assert_name_rejects n H) as [rule Hr]; rewrite Hr ].

(** The two outcomes of [assert_name] on [n]. *)
Ltac name_cases n :=
  let Hok := fresh "Hok" in
  let rule := fresh "rule" in
  let Hbad := fresh "Hbad" in
  destruct (assert_name_cases n) as [Hok|[rule Hbad]];
  [ rewrite Hok | rewrite Hbad ].

(** X9: [Field] is constructed exactly when its name is a legal name and its
    alias is absent or a legal name; it then holds what was passed, with the
    empty list for absent [arguments] and [fields] and [False] for an absent
    [typename], whatever the selections are.  Otherwise the naming error is
    raised on the name, or on the alias when the name is legal. *)
Theorem Field_new_outcome (name : string) (alias : option string)
    (arguments : option (list Argument)) (fields : option (list Selection))
    (typename : option bool) :
  if Name.is_name name && alias_ok alias
  then Field_new name alias arguments fields typename
       = inr (mkField name alias (or_default arguments [])
                      (or_default fields []) (or_default typename false))
  else exists rule,
      Field_new name alias arguments fields typename
      = inl (GraphQLError rule
               (if Name.is_name name then or_default alias ""%string
                else name)).
Proof.
  unfold_new. decide_name name; cbn [andb].
  - destruct alias as [a|]; cbn [alias_ok or_default].
    + decide_name a.
      * destruct arguments, fields, typename; reflexivity.
      * eexists; reflexivity.
    + destruct arguments, fields, typename; reflexivity.
  - eexists; reflexivity.
Qed.

(** X10: an inline fragment, a fragment and a query are constructed exactly
    when their name and alias (where they have one) are legal and the
    [fields] keyword is not passed as the empty list; they then hold what was
    passed, with the empty list for an absent [fields] or [arguments] and
    [False] for an absent [typename].  With legal names and an empty list
    passed the error of the empty selection is raised; with an illegal name
    or alias the naming error on it. *)
Theorem selection_constructors_outcome :
  (forall type arguments fields typename,
      InlineFragment_new type arguments fields typename
      = if passed_empty fields
        then inl (empty_fields_error "inline fragment")
        else inr (mkInlineFragment type (or_default arguments [])
                                   (or_default fields [])
                                   (or_default typename false)))
  /\ (forall name type fields typename,
         if Name.is_name name
         then Fragment_new name type fields typename
              = if passed_empty fields
                then inl (empty_fields_error "fragment")
                else inr (mkFragment name type (or_default fields [])
                                     (or_default typename false))
         else exists rule,
             Fragment_new name type fields typename
             = inl (GraphQLError rule name))
  /\ (forall name alias arguments typename fields,
         if Name.is_name name && alias_ok alias
         then Query_new name alias arguments typename fields
              = if passed_empty fields
                then inl (empty_fields_error "query")
                else inr (mkQuery name alias (or_default arguments [])
                                  (or_default typename false)
                                  (or_default fields []))
         else exists rule,
             Query_new name alias arguments typename fields
             = inl (GraphQLError rule
                      (if Name.is_name name then or_default alias ""%string
                       else name))).
Proof.
  repeat split; intros; unfold_new.
  - destruct arguments, fields as [[|sel0 sels]|], typename; reflexivity.
  - decide_name name.
    + destruct fields as [[|sel0 sels]|], typename; reflexivity.
    + eexists; reflexivity.
  - decide_name name; cbn [andb].
    + destruct alias as [a|]; cbn [alias_ok or_default].
      * decide_name a.
        -- destruct arguments, fields as [[|sel0 sels]|], typename; reflexivity.
        -- eexists; reflexivity.
      * destruct arguments, fields as [[|sel0 sels]|], typename; reflexivity.
    + eexists; reflexivity.
Qed.

(** X11: an operation is constructed exactly when its name is absent or
    legal, the three keywords [variables], [queries] and [fragments] are all
    passed, and [queries] is not empty; it then holds what was passed, with
    ["query"] for an absent [type].  With a legal name, an absent list
    keyword raises the [TypeError] of the default factory
    [typing.List[...]], also when [queries] is passed empty; with the three
    lists passed, an empty [queries] raises the error of the empty list of
    queries. *)
Theorem Operation_new_outcome (type name : option string)
    (variables : option (list VariableT)) (queries : option (list Query))
    (fragments : option (list Fragment)) :
  if alias_ok name
  then Operation_new type name variables queries fragments
       = match variables, queries, fragments with
         | Some vs, Some qs, Some fs =>
             if passed_empty queries then inl empty_queries_error
             else inr (mkOperation (or_default type "query"%string) name
                                   vs qs fs)
         | _, _, _ => inl typing_List_error
         end
  else exists rule,
      Operation_new type name variables queries fragments
      = inl (GraphQLError rule (or_default name ""%string)).
Proof.
  unfold_new. destruct name as [n|]; cbn [alias_ok or_default].
  - decide_name n.
    + destruct type, variables, queries as [[|q0 qs0]|], fragments; reflexivity.
    + destruct type; eexists; reflexivity.
  - destruct type, variables, queries as [[|q0 qs0]|], fragments; reflexivity.
Qed.

(** X12: every operation that its constructor returns has at least one
    query, and was passed its three lists: it holds exactly the lists, the
    name and the type that were passed (["query"] for an absent type), and
    its name is absent or a legal name. *)
Theorem constructed_Operation_invariant (type name : option string)
    (variables : option (list VariableT)) (queries : option (list Query))
    (fragments : option (list Fragment)) (op : Operation) :
  Operation_new type name variables queries fragments = inr op ->
  Operation_queries op <> []
  /\ variables = Some (Operation_variables op)
  /\ queries = Some (Operation_queries op)
  /\ fragments = Some (Operation_fragments op)
  /\ Operation_type op = or_default type "query"%string
  /\ Operation_name op = name
  /\ alias_ok name = true.
Proof.
  unfold_new. destruct name as [n|]; cbn [alias_ok].
  - decide_name n; [|destruct type; discriminate].
    destruct type, variables, queries as [[|q0 qs0]|], fragments;
      try discriminate;
      intros H; injection H as <-; repeat split; discriminate.
  - destruct type, variables, queries as [[|q0 qs0]|], fragments;
      try discriminate;
      intros H; injection H as <-; repeat split; discriminate.
Qed.

Lemma constructed_Operation_invariant_witness :
  Operation_new None (Some "Hero"%string) (Some []) (Some [hero_query])
                (Some [])
  = inr (mkOperation "query" (Some "Hero"%string) [] [hero_query] [])
  /\ [hero_query] <> []
  /\ Some (@nil VariableT) = Some []
  /\ Some [hero_query] = Some [hero_query]
  /\ Some (@nil Fragment) = Some []
  /\ "query"%string = or_default None "query"%string
  /\ Some "Hero"%string = Some "Hero"%string
  /\ alias_ok (Some "Hero"%string) = true.
Proof.
  split; [reflexivity|].
  exact (constructed_Operation_invariant None (Some "Hero"%string) (Some [])
           (Some [hero_query]) (Some [])
           (mkOperation "query" (Some "Hero"%string) [] [hero_query] [])
           eq_refl).
Defined.

(** X13: the name a constructed variable, argument, field, fragment or query
    holds is the string that was passed and is a legal name, and the alias a
    constructed field or query holds is the one that was passed and is
    absent or a legal name. *)
Theorem constructed_names_legal :
  (forall name type default v,
      Variable_new name type default = inr v ->
      Variable_name v = name /\ Name.is_name name = true)
  /\ (forall name value a,
         Argument_new name value = inr a ->
         Argument_name a = name /\ Name.is_name name = true)
  /\ (forall name alias arguments fields typename f,
         Field_new name alias arguments fields typename = inr f ->
         Field_name f = name /\ Name.is_name name = true
         /\ Field_alias f = alias /\ alias_ok alias = true)
  /\ (forall name type fields typename f,
         Fragment_new name type fields typename = inr f ->
         Fragment_name f = name /\ Name.is_name name = true)
  /\ (forall name alias arguments typename fields q,
         Query_new name alias arguments typename fields = inr q ->
         Query_name q = name /\ Name.is_name name = true
         /\ Query_alias q = alias /\ alias_ok alias = true).
Proof.
  repeat apply conj; intros *; unfold_new.
  - decide_name name; [|discriminate].
    intros H; injection H as <-. now split.
  - decide_name name; [|discriminate].
    intros H; injection H as <-. now split.
  - decide_name name; [|discriminate].
    destruct alias as [a|]; cbn [alias_ok].
    + decide_name a; [|discriminate].
      destruct arguments, fields, typename;
        intros H; injection H as <-; now repeat split.
    + destruct arguments, fields, typename;
        intros H; injection H as <-; now repeat split.
  - decide_name name; [|discriminate].
    destruct fields as [[|sel0 sels]|], typename; try discriminate;
      intros H; injection H as <-; now split.
  - decide_name name; [|discriminate].
    destruct alias as [a|]; cbn [alias_ok].
    + decide_name a; [|discriminate].
      destruct arguments, fields as [[|sel0 sels]|], typename; try discriminate;
        intros H; injection H as <-; now repeat split.
    + destruct arguments, fields as [[|sel0 sels]|], typename; try discriminate;
        intros H; injection H as <-; now repeat split.
Qed.

Lemma constructed_names_legal_witness :
  Variable_new "episode" "Episode" (Some "JEDI"%string)
  = inr (mkVariable "episode" "Episode" (Some "JEDI"%string))
  /\ Variable_name (mkVariable "episode" "Episode" (Some "JEDI"%string))
     = "episode"%string
  /\ Name.is_name "episode" = true.
Proof.
  split; [reflexivity|].
  exact (proj1 constructed_names_legal "episode"%string "Episode"%string
           (Some "JEDI"%string)
           (mkVariable "episode" "Episode" (Some "JEDI"%string)) eq_refl).
Defined.

(** X14: a constructor raises a validation error only for an empty list that
    was passed: for [InlineFragment], [Fragment] and [Query] the error then
    has the single entry of [fields] and the keyword [fields] was passed
    empty, for [Operation] it has the single entry of [queries] and
    [queries] was passed empty; [Variable], [Argument] and [Field] never
    raise one. *)
Theorem validation_error_only_for_empty_list (errors : list (string * string)) :
  (forall type arguments fields typename,
      InlineFragment_new type arguments fields typename
      = inl (ValidationError errors) ->
      fields = Some []
      /\ ValidationError errors = empty_fields_error "inline fragment")
  /\ (forall name type fields typename,
         Fragment_new name type fields typename
         = inl (ValidationError errors) ->
         fields = Some []
         /\ ValidationError errors = empty_fields_error "fragment")
  /\ (forall name alias arguments typename fields,
         Query_new name alias arguments typename fields
         = inl (ValidationError errors) ->
         fields = Some []
         /\ ValidationError errors = empty_fields_error "query")
  /\ (forall type name variables queries fragments,
         Operation_new type name variables queries fragments
         = inl (ValidationError errors) ->
         queries = Some [] /\ ValidationError errors = empty_queries_error)
  /\ (forall name type default,
         Variable_new name type default <> inl (ValidationError errors))
  /\ (forall name value,
         Argument_new name value <> inl (ValidationError errors))
  /\ (forall name alias arguments fields typename,
         Field_new name alias arguments fields typename
         <> inl (ValidationError errors)).
Proof.
  repeat apply conj; intros *; unfold_new.
  - destruct arguments, fields as [[|sel0 sels]|], typename; try discriminate;
      intros H; injection H as <-; now split.
  - name_cases name; [|discriminate].
    destruct fields as [[|sel0 sels]|], typename; try discriminate;
      intros H; injection H as <-; now split.
  - name_cases name; [|discriminate].
    destruct alias as [a|]; [name_cases a; [|discriminate]|];
      destruct arguments, fields as [[|sel0 sels]|], typename; try discriminate;
      intros H; injection H as <-; now split.
  - destruct name as [n|]; [name_cases n; [|destruct type; discriminate]|];
      destruct type, variables, queries as [[|q0 qs0]|], fragments;
      try discriminate;
      intros H; injection H as <-; now split.
  - name_cases name; discriminate.
  - name_cases name; discriminate.
  - name_cases name; [|discriminate].
    destruct alias as [a|]; [name_cases a; [|discriminate]|];
      destruct arguments, fields, typename; discriminate.
Qed.

Lemma validation_error_only_for_empty_list_witness :
  Query_new "hero" None None None (Some [])
  = inl (ValidationError [("fields", "empty fields for this query")%string])
  /\ Some (@nil Selection) = Some []
  /\ ValidationError [("fields", "empty fields for this query")%string]
     = empty_fields_error "query".
Proof.
  split; [reflexivity|].
  exact (proj1 (proj2 (proj2 (validation_error_only_for_empty_list
                                [("fields",
                                  "empty fields for this query")%string])))
           "hero"%string None None None (Some []) eq_refl).
Defined.

End Outcomes.
